(** * gulp-run: pipe vinyl files through shell commands

    A shallow embedding of [index.js]: the construction of a command
    ([run]), the per-file transform ([stream._transform]), the one-shot
    entry point ([stream.exec]) and the [tee] helper, over an explicit
    model of the objects the code mutates (vinyl files, child processes,
    object streams, the process environment, the [nextTick] queue). *)

From Stdlib Require Import Ascii String.
From stdpp Require Import base gmap strings list.

Local Open Scope char_scope.

(** ** Results of fallible JavaScript code *)

Inductive error : Type :=
| ParseError
| TypeError.

Inductive result (A : Type) : Type :=
| Ok (a : A)
| Throw (e : error).
Arguments Ok {A} a.
Arguments Throw {A} e.

Definition bind {A B} (r : result A) (k : A -> result B) : result B :=
  match r with
  | Ok a => k a
  | Throw e => Throw e
  end.

Notation "x <-- r ;; k" := (bind r (fun x => k))
  (at level 100, r at next level, right associativity).

Definition of_option {A} (e : error) (o : option A) : result A :=
  match o with
  | Some a => Ok a
  | None => Throw e
  end.

(** ** Parse trees

    The tree the generated parser hands to [run]: every node has a
    [textValue] and a list of [elements]; a node of the argument list
    also carries the labelled child [arg]. *)

Local Unset Elimination Schemes.
Inductive Node : Type :=
| mkNode (text : string) (elems : list Node) (label_arg : option Node).
Local Set Elimination Schemes.

Definition textValue (n : Node) : string :=
  match n with mkNode t _ _ => t end.

Definition elements (n : Node) : list Node :=
  match n with mkNode _ es _ => es end.

Definition arg (n : Node) : option Node :=
  match n with mkNode _ _ a => a end.

Definition leaf (t : string) : Node := mkNode t [] None.

(** ** The command grammar *)

Module Parser.

(** [SPACE]: a blank or a tab. *)
Definition is_space (c : ascii) : bool :=
  Ascii.eqb c " " || Ascii.eqb c "009".

Definition is_quote (c : ascii) : bool :=
  Ascii.eqb c "034" || Ascii.eqb c "'".

(** A character of a bare word: neither [SPACE] nor a quote. *)
Definition is_bare (c : ascii) : bool :=
  negb (is_space c) && negb (is_quote c).

(** Modelled from the spec: [lib/command-parser] is not among the
    sources.  [SPACE*], greedy: the matched blanks and the rest. *)
Fixpoint spaces (s : string) : string * string :=
  match s with
  | String c s' =>
      if is_space c
      then let '(m, r) := spaces s' in (String c m, r)
      else (EmptyString, s)
  | EmptyString => (EmptyString, EmptyString)
  end.

(** Modelled from the spec: [lib/command-parser] is not among the
    sources.  The longest run of bare characters and the rest. *)
Fixpoint bare_run (s : string) : string * string :=
  match s with
  | String c s' =>
      if is_bare c
      then let '(m, r) := bare_run s' in (String c m, r)
      else (EmptyString, s)
  | EmptyString => (EmptyString, EmptyString)
  end.

(** A matched token: its literal text, the raw text it covers, and the
    input left. *)
Definition token : Type := string * string * string.

(** Modelled from the spec: [lib/command-parser] is not among the
    sources.  [bare := one-or-more characters excluding SPACE, quote
    characters]. *)
Definition bare (s : string) : option token :=
  match bare_run s with
  | (EmptyString, _) => None
  | (m, r) => Some (m, m, r)
  end.

(** Modelled from the spec: [lib/command-parser] is not among the
    sources.  The body of [quoted_single] after the opening quote:
    every character up to the next single quote, taken literally. *)
Fixpoint single_body (s : string) : option (string * string) :=
  match s with
  | EmptyString => None
  | String c s' =>
      if Ascii.eqb c "'" then Some (EmptyString, s')
      else
        match single_body s' with
        | Some (m, r) => Some (String c m, r)
        | None => None
        end
  end.

(** Modelled from the spec: [lib/command-parser] is not among the
    sources.  The body of [quoted_double] after the opening quote:
    escaped characters (a backslash and any character) and characters
    other than the double quote and the backslash, up to the closing
    double quote; an escaped character stands for itself.  The result
    is the literal text, the raw body and the rest. *)
Fixpoint double_body (s : string) : option token :=
  match s with
  | EmptyString => None
  | String c s' =>
      if Ascii.eqb c "034" then Some (EmptyString, EmptyString, s')
      else if Ascii.eqb c "\" then
        match s' with
        | EmptyString => None
        | String e s'' =>
            match double_body s'' with
            | Some (l, m, r) => Some (String e l, String c (String e m), r)
            | None => None
            end
        end
      else
        match double_body s' with
        | Some (l, m, r) => Some (String c l, String c m, r)
        | None => None
        end
  end.

(** Modelled from the spec: [lib/command-parser] is not among the
    sources.  [argument := quoted_double | quoted_single | bare], an
    ordered choice. *)
Definition argument (s : string) : option token :=
  match s with
  | EmptyString => None
  | String c s' =>
      if Ascii.eqb c "034" then
        match double_body s' with
        | Some (l, m, r) => Some (l, String c (m +:+ String "034" EmptyString), r)
        | None => None
        end
      else if Ascii.eqb c "'" then
        match single_body s' with
        | Some (m, r) => Some (m, String c (m +:+ String "'" EmptyString), r)
        | None => None
        end
      else bare s
  end.

(** Modelled from the spec: [lib/command-parser] is not among the
    sources.  [arglist := (SPACE* argument)*]: the repetition stops at
    the first iteration that does not match and leaves the input
    there.  As the rule is written, the blanks before an argument may
    be none.  Every iteration consumes a character, so the length of
    the input bounds their number. *)
Fixpoint arglist (fuel : nat) (s : string) : list Node * string :=
  match fuel with
  | O => ([], s)
  | S fuel' =>
      let '(sp, s1) := spaces s in
      match argument s1 with
      | Some (lit, raw, s2) =>
          let '(ns, r) := arglist fuel' s2 in
          (mkNode (sp +:+ raw) [leaf sp; leaf lit] (Some (leaf lit)) :: ns, r)
      | None => ([], s)
      end
  end.

(** Modelled from the spec: [lib/command-parser] is not among the
    sources.  [command := program SPACE* arglist], where [program]
    follows the rules of a bare word; the whole input must be
    consumed.  The node of an argument carries its literal text, with
    the quoting removed. *)
Definition parse (command : string) : result Node :=
  match bare command with
  | None => Throw ParseError
  | Some (p, _, s1) =>
      let '(sp, s2) := spaces s1 in
      match arglist (String.length s2) s2 with
      | (ns, EmptyString) =>
          Ok (mkNode command
                [leaf p; leaf sp;
                 mkNode s2 ns None]
                None)
      | (_, String _ _) => Throw ParseError
      end
  end.

End Parser.

(** ** [run]: reading the command off the parse tree *)

(** [arg_node.arg.textValue]; a node without the label throws. *)
Definition arg_text (arg_node : Node) : result string :=
  a <-- of_option TypeError (arg arg_node) ;; Ok (textValue a).

(** [ast.elements[2].elements.forEach(... args.push(...))] *)
Fixpoint collect_args (nodes : list Node) (args : list string)
  : result (list string) :=
  match nodes with
  | [] => Ok args
  | arg_node :: rest =>
      t <-- arg_text arg_node ;; collect_args rest (args ++ [t])
  end.

(** The first lines of [run]: [cmd] and [args]. *)
Definition command_of (command : string) : result (string * list string) :=
  ast <-- Parser.parse command ;;
  e0 <-- of_option TypeError (elements ast !! 0%nat) ;;
  let cmd := textValue e0 in
  e2 <-- of_option TypeError (elements ast !! 2%nat) ;;
  args <-- collect_args (elements e2) [] ;;
  Ok (cmd, args).

(** ** The objects of the runner

    Buffers are byte strings.  Objects live in heaps indexed by their
    identity: the code mutates vinyl files in place and forwards the
    same object. *)

Abbreviation file_id := nat (only parsing).
Abbreviation child_id := nat (only parsing).
Abbreviation stream_id := nat (only parsing).
Abbreviation tee_id := nat (only parsing).

(** A readable byte stream: the stdout of a child, the readable side of
    a [tee] transform, or a stream the caller supplied. *)
Inductive ByteStream : Type :=
| ChildStdout (c : child_id)
| TeeStream (t : tee_id)
| SourceStream (n : nat).

(** What [file.contents] may hold: [null], a [Buffer], a [Stream], or
    some other value (here a plain string). *)
Inductive Contents : Type :=
| CNull
| CBuffer (b : string)
| CStream (s : ByteStream)
| COther (v : string).

Record File : Type := mkFile {
  path : string;
  contents : Contents
}.

Definition isNull (file : File) : bool :=
  match contents file with CNull => true | _ => false end.

Definition isStream (file : File) : bool :=
  match contents file with CStream _ => true | _ => false end.

Definition isBuffer (file : File) : bool :=
  match contents file with CBuffer _ => true | _ => false end.

(** What has been done to the stdin of a child. *)
Inductive StdinOp : Type :=
| PipedFrom (f : file_id) (c : Contents)
| StdinEnd.

(** The callbacks handed to [process.nextTick]: the [done] of a
    [_transform] call (named by the caller), the callback of a [tee]
    transform, and the callback of an [exec_stream]. *)
Inductive Callback : Type :=
| Done (d : nat)
| TeeCallback (t : tee_id)
| ExecCallback (s : stream_id).

(** The listeners the code attaches to the stdout of a child: the two
    closures of the buffered branch, and the pipe into a [tee]. *)
Inductive Listener : Type :=
| OnReadable (f : file_id)
| OnEnd (s : stream_id) (f : file_id) (done : Callback)
| PipeTo (t : tee_id).

Record Child : Type := mkChild {
  program : string;
  argv : list string;
  environ : gmap string string;
  stdin : list StdinOp;
  listeners : list Listener;
  emitted : list string
}.

Record Tee : Type := mkTee {
  title : string;
  tee_out : list string
}.

(** An object-mode stream: the items pushed to its readable side, and
    whether [end] was called. *)
Record ObjStream : Type := mkObjStream {
  pushed : list file_id;
  ended : bool
}.

(** The state of the process: [process.env]; the heaps of vinyl files,
    child processes, tees and object streams; the [nextTick] queue and
    the callbacks that have run, in order; what was written to
    [process.stdout]; the [error] events emitted on a stage, each with
    the child it reports; and the children whose [error] event ended as
    an uncaught exception. *)
Record World : Type := mkWorld {
  env : gmap string string;
  files : list File;
  children : list Child;
  tees : list Tee;
  streams : list ObjStream;
  ticks : list Callback;
  called : list Callback;
  stdout : string;
  errors : list (stream_id * child_id);
  uncaught : list child_id
}.

Definition with_env (e : gmap string string) (w : World) : World :=
  mkWorld e (files w) (children w) (tees w) (streams w) (ticks w)
    (called w) (stdout w) (errors w) (uncaught w).

Definition with_files (fs : list File) (w : World) : World :=
  mkWorld (env w) fs (children w) (tees w) (streams w) (ticks w)
    (called w) (stdout w) (errors w) (uncaught w).

Definition with_children (cs : list Child) (w : World) : World :=
  mkWorld (env w) (files w) cs (tees w) (streams w) (ticks w)
    (called w) (stdout w) (errors w) (uncaught w).

Definition with_tees (ts : list Tee) (w : World) : World :=
  mkWorld (env w) (files w) (children w) ts (streams w) (ticks w)
    (called w) (stdout w) (errors w) (uncaught w).

Definition with_streams (ss : list ObjStream) (w : World) : World :=
  mkWorld (env w) (files w) (children w) (tees w) ss (ticks w)
    (called w) (stdout w) (errors w) (uncaught w).

Definition with_ticks (q : list Callback) (w : World) : World :=
  mkWorld (env w) (files w) (children w) (tees w) (streams w) q
    (called w) (stdout w) (errors w) (uncaught w).

Definition with_called (l : list Callback) (w : World) : World :=
  mkWorld (env w) (files w) (children w) (tees w) (streams w) (ticks w)
    l (stdout w) (errors w) (uncaught w).

Definition with_stdout (o : string) (w : World) : World :=
  mkWorld (env w) (files w) (children w) (tees w) (streams w) (ticks w)
    (called w) o (errors w) (uncaught w).

Definition with_uncaught (u : list child_id) (w : World) : World :=
  mkWorld (env w) (files w) (children w) (tees w) (streams w) (ticks w)
    (called w) (stdout w) (errors w) u.

(** ** Primitives of the runtime *)

(** [stream.push(file)] on an object stream. *)
Definition push (s : stream_id) (f : file_id) (w : World) : World :=
  match streams w !! s with
  | Some st =>
      with_streams (<[s := mkObjStream (pushed st ++ [f]) (ended st)]> (streams w)) w
  | None => w
  end.

(** [process.nextTick(cb)] *)
Definition nextTick (cb : Callback) (w : World) : World :=
  with_ticks (ticks w ++ [cb]) w.

(** [file.contents = v] on the shared file object. *)
Definition set_contents (f : file_id) (v : Contents) (w : World) : World :=
  match files w !! f with
  | Some file => with_files (<[f := mkFile (path file) v]> (files w)) w
  | None => w
  end.

(** [new Vinyl({contents, path})] *)
Definition new_file (file : File) (w : World) : file_id * World :=
  (length (files w), with_files (files w ++ [file]) w).

(** [new Stream.Transform({objectMode: true})] *)
Definition new_stream (w : World) : stream_id * World :=
  (length (streams w), with_streams (streams w ++ [mkObjStream [] false]) w).

(** [child_process.spawn(cmd, args, {env: env})], where [env] is the
    object [process.env] itself: the child gets the variables that
    object holds when it is spawned. *)
Definition spawn (cmd : string) (args : list string) (w : World)
  : child_id * World :=
  (length (children w),
   with_children (children w ++ [mkChild cmd args (env w) [] [] []]) w).

Definition update_child (c : child_id) (g : Child -> Child) (w : World) : World :=
  match children w !! c with
  | Some ch => with_children (<[c := g ch]> (children w)) w
  | None => w
  end.

(** An operation on [child.stdin]. *)
Definition stdin_op (c : child_id) (op : StdinOp) : World -> World :=
  update_child c (fun ch =>
    mkChild (program ch) (argv ch) (environ ch) (stdin ch ++ [op])
      (listeners ch) (emitted ch)).

(** [child.stdout.on(...)] and [child.stdout.pipe(...)] *)
Definition listen (c : child_id) (l : Listener) : World -> World :=
  update_child c (fun ch =>
    mkChild (program ch) (argv ch) (environ ch) (stdin ch)
      (listeners ch ++ [l]) (emitted ch)).

(** The chunks the stdout of a child has delivered. *)
Definition record_output (c : child_id) (chunk : string) : World -> World :=
  update_child c (fun ch =>
    mkChild (program ch) (argv ch) (environ ch) (stdin ch)
      (listeners ch) (emitted ch ++ [chunk])).

(** [Buffer.concat(list, totalLength)]: the buffers of [list] copied one
    after the other into a buffer of [totalLength] bytes, cut when it is
    too short and zero-filled when it is too long. *)
Fixpoint fit (n : nat) (s : string) : string :=
  match n with
  | O => EmptyString
  | S n' =>
      match s with
      | EmptyString => String "000" (fit n' EmptyString)
      | String c s' => String c (fit n' s')
      end
  end.

Definition Buffer_concat (l : list string) (totalLength : nat) : string :=
  fit totalLength (foldr String.append EmptyString l).

(** ** [run(command)] *)

(** [env.PATH] read into a string concatenation: a missing variable
    prints as [undefined]. *)
Definition PATH_of (e : gmap string string) : string :=
  default "undefined"%string (e !! "PATH"%string).

(** What the closures of [run] share: [cmd], [args] and the [stream]
    returned.  Their [env] is [process.env] itself, the [env] of the
    world. *)
Record Command : Type := mkCommand {
  cmd : string;
  args : list string;
  stage : stream_id
}.

Definition run (command : string) (w : World) : result (Command * World) :=
  cmd_args <-- command_of command ;;
  let '(stream, w1) := new_stream w in
  let w2 :=
    with_env
      (<["PATH"%string := "./node_modules/.bin:" +:+ PATH_of (env w1)]> (env w1))
      w1 in
  Ok (mkCommand (fst cmd_args) (snd cmd_args) stream, w2).

(** ** [stream._transform(file, enc, done)] *)

Definition transform (k : Command) (f : file_id) (done : Callback) (w : World)
  : World :=
  match files w !! f with
  | None => w
  | Some file =>
      if isNull file then
        nextTick done (push (stage k) f w)
      else
        let '(child, w1) := spawn (cmd k) (args k) w in
        let w2 := stdin_op child (PipedFrom f (contents file)) w1 in
        if isStream file then
          nextTick done
            (push (stage k) f
               (set_contents f (CStream (ChildStdout child)) w2))
        else if isBuffer file then
          listen child (OnEnd (stage k) f done)
            (listen child (OnReadable f)
               (set_contents f (CBuffer EmptyString) w2))
        else
          w2
  end.

(** ** [tee(title)] and [stream.exec(print)] *)

Definition tee (title : string) (w : World) : tee_id * World :=
  (length (tees w), with_tees (tees w ++ [mkTee title []]) w).

(** The [_transform] of a [tee], run on each chunk as it is piped in:
    the writes reach [process.stdout] in the order of the chunks. *)
Definition tee_transform (t : tee_id) (chunk : string) (w : World) : World :=
  match tees w !! t with
  | Some te =>
      let w1 := with_stdout (stdout w +:+ ("[" +:+ title te +:+ "] " +:+ chunk)) w in
      let w2 :=
        with_tees (<[t := mkTee (title te) (tee_out te ++ [chunk])]> (tees w1)) w1 in
      nextTick (TeeCallback t) w2
  | None => w
  end.

(** [exec_stream.end(file)]: the file is written, which runs the
    [_transform] of the [exec_stream], and the stream is ended. *)
Definition exec_stream_end (s : stream_id) (file : file_id) (w : World) : World :=
  let w1 := nextTick (ExecCallback s) (push s file w) in
  match streams w1 !! s with
  | Some st => with_streams (<[s := mkObjStream (pushed st) true]> (streams w1)) w1
  | None => w1
  end.

Definition exec (k : Command) (print : bool) (w : World) : stream_id * World :=
  let '(child, w1) := spawn (cmd k) (args k) w in
  let w2 := stdin_op child StdinEnd w1 in
  let '(c, w3) :=
    if print then
      let '(t, w') := tee (cmd k) w2 in
      (CStream (TeeStream t), listen child (PipeTo t) w')
    else
      (CStream (ChildStdout child), w2) in
  let '(file, w4) := new_file (mkFile (cmd k) c) w3 in
  let '(exec_stream, w5) := new_stream w4 in
  (exec_stream, exec_stream_end exec_stream file w5).

(** ** Events of the runtime *)

(** What the event loop delivers: the stdout of a child announces
    output, and [stdout.read()] returns [chunk] ([None] for [null]); the
    stdout of a child ends; a child emits [error] because it could not
    be spawned; the next [nextTick] callback runs. *)
Inductive Event : Type :=
| Output (c : child_id) (chunk : option string)
| End (c : child_id)
| SpawnError (c : child_id)
| Tick.

(** The closure of the buffered branch for [readable], and the pipe into
    a [tee].  The file holds the Buffer the stage stored; with anything
    else [Buffer.concat] throws and nothing is stored. *)
Definition on_output (chunk : option string) (w : World) (l : Listener) : World :=
  match l, chunk with
  | OnReadable f, Some ch =>
      match files w !! f with
      | Some file =>
          match contents file with
          | CBuffer b =>
              set_contents f
                (CBuffer (Buffer_concat [b; ch] (String.length b + String.length ch)))
                w
          | _ => w
          end
      | None => w
      end
  | PipeTo t, Some ch => tee_transform t ch w
  | _, _ => w
  end.

(** The closure of the buffered branch for [end]. *)
Definition on_end (w : World) (l : Listener) : World :=
  match l with
  | OnEnd s f done => nextTick done (push s f w)
  | _ => w
  end.

(** One event.  Neither [_transform] nor [exec] attaches a listener for
    the [error] event of a child or of its streams, and an emitter
    throws an [error] event nobody listens to: it ends as an uncaught
    exception of the process. *)
Definition step (w : World) (e : Event) : World :=
  match e with
  | Output c chunk =>
      match children w !! c with
      | Some ch =>
          let w1 :=
            match chunk with
            | Some data => record_output c data w
            | None => w
            end in
          foldl (on_output chunk) w1 (listeners ch)
      | None => w
      end
  | End c =>
      match children w !! c with
      | Some ch => foldl on_end w (listeners ch)
      | None => w
      end
  | SpawnError c =>
      match children w !! c with
      | Some _ => with_uncaught (uncaught w ++ [c]) w
      | None => w
      end
  | Tick =>
      match ticks w with
      | cb :: q => with_called (called w ++ [cb]) (with_ticks q w)
      | [] => w
      end
  end.

Definition run_events (es : list Event) (w : World) : World :=
  foldl step w es.

(** The chunks that have come out of a byte stream. *)
Definition stream_chunks (w : World) (s : ByteStream) : list string :=
  match s with
  | ChildStdout c => from_option emitted [] (children w !! c)
  | TeeStream t => from_option tee_out [] (tees w !! t)
  | SourceStream _ => []
  end.

(** The chunks of a sequence of [read()] results, [null]s dropped. *)
Definition chunks_of (outs : list (option string)) : list string :=
  omap id outs.

(** The world of a fresh process with the given environment. *)
Definition init (e : gmap string string) : World :=
  mkWorld e [] [] [] [] [] [] EmptyString [] [].

(** Modelled from the spec: the echo contract in the spec's words,
    every output line prefixed by the program in brackets.  A line ends
    with its line feed; [fresh] tells whether the next character starts
    a line. *)
Fixpoint prefix_lines_from (fresh : bool) (title : string) (s : string) : string :=
  match s with
  | EmptyString => EmptyString
  | String c s' =>
      let rest := prefix_lines_from (if Ascii.eqb c "010" then true else false) title s' in
      if fresh then ("[" +:+ title +:+ "] ") +:+ String c rest else String c rest
  end.

Definition prefix_lines : string -> string -> string := prefix_lines_from true.

(** Newline, double quote, and an escaped double quote, as strings. *)
Definition nl : string := String "010" EmptyString.
(** A string holding one double quote, and one holding a backslash
    followed by a double quote. *)
Definition dq : string := String "034" EmptyString.
Definition esc_dq : string := String "\" dq.

(** ** The grammar as a relation

    Modelled from the spec: the grammar of the command string, rule by
    rule, relating a text to the literal it stands for.  A command
    string is well formed when the grammar derives it. *)

Module Grammar.

Import Parser.

(** [SPACE*] *)
Inductive Spaces : string -> Prop :=
| Spaces_nil : Spaces EmptyString
| Spaces_cons c s : is_space c = true -> Spaces s -> Spaces (String c s).

(** [bare]: one or more characters, none a [SPACE] or a quote. *)
Inductive Bare : string -> Prop :=
| Bare_one c : is_bare c = true -> Bare (String c EmptyString)
| Bare_cons c s : is_bare c = true -> Bare s -> Bare (String c s).

(** The inside of [quoted_double]: the raw text and its literal. *)
Inductive DoubleBody : string -> string -> Prop :=
| DoubleBody_nil : DoubleBody EmptyString EmptyString
| DoubleBody_esc e raw lit :
    DoubleBody raw lit ->
    DoubleBody (String "\" (String e raw)) (String e lit)
| DoubleBody_chr c raw lit :
    c <> "034" -> c <> "\" ->
    DoubleBody raw lit ->
    DoubleBody (String c raw) (String c lit).

(** The inside of [quoted_single]. *)
Inductive SingleBody : string -> Prop :=
| SingleBody_nil : SingleBody EmptyString
| SingleBody_cons c s : c <> "'" -> SingleBody s -> SingleBody (String c s).

(** [argument]: the raw text and its literal. *)
Inductive Argument : string -> string -> Prop :=
| Argument_double raw lit :
    DoubleBody raw lit -> Argument (String "034" (raw +:+ dq)) lit
| Argument_single body :
    SingleBody body ->
    Argument (String "'" (body +:+ String "'" EmptyString)) body
| Argument_bare b : Bare b -> Argument b b.

(** [arglist := (SPACE* argument)*] *)
Inductive Arglist : string -> list string -> Prop :=
| Arglist_nil : Arglist EmptyString []
| Arglist_cons sp raw lit rest lits :
    Spaces sp -> Argument raw lit -> Arglist rest lits ->
    Arglist (sp +:+ raw +:+ rest) (lit :: lits).

(** [command := program SPACE* arglist] *)
Inductive CommandString : string -> string -> list string -> Prop :=
| CommandString_intro p sp al lits :
    Bare p -> Spaces sp -> Arglist al lits ->
    CommandString (p +:+ sp +:+ al) p lits.

Definition well_formed (s : string) : Prop :=
  exists p lits, CommandString s p lits.

(** The texts the rule [arglist] derives, and those of [SPACE* arglist]. *)
Definition AL (s : string) : Prop := exists lits, Arglist s lits.

Definition SA (s : string) : Prop :=
  exists sp al, Spaces sp /\ AL al /\ s = sp +:+ al.

End Grammar.

(** ** Vocabulary of the properties *)

(** The text of a [read()] result, and the concatenation of chunks. *)
Definition text_of (o : option string) : string := default EmptyString o.

Definition joined (chunks : list string) : string :=
  foldr String.append EmptyString chunks.

(** What a [tee] writes for the chunks it is handed. *)
Definition echoed (ttl : string) (chunks : list string) : string :=
  joined (map (fun chunk => "[" +:+ ttl +:+ "] " +:+ chunk) chunks).

(** The state of a buffered transfer: the child [c] carries the two
    closures of the buffered branch, and the file [f] holds the bytes
    gathered so far. *)
Definition buffering (c : child_id) (f : file_id) (s : stream_id)
    (cb : Callback) (p : string) (acc : string) (w : World) : Prop :=
  (exists ch, children w !! c = Some ch /\
              listeners ch = [OnReadable f; OnEnd s f cb]) /\
  files w !! f = Some (mkFile p (CBuffer acc)).

(** The state of a teed child: its stdout is piped into the tee [t],
    and both have delivered the same chunks. *)
Definition piping (c : child_id) (t : tee_id) (ttl : string)
    (chunks : list string) (w : World) : Prop :=
  (exists ch, children w !! c = Some ch /\ listeners ch = [PipeTo t] /\
              emitted ch = chunks) /\
  tees w !! t = Some (mkTee ttl chunks).

(** An event that concerns the child [c], or a tick. *)
Definition about (c : child_id) (e : Event) : Prop :=
  match e with
  | Output c' _ | End c' | SpawnError c' => c' = c
  | Tick => True
  end.

(** A child nothing listens to. *)
Definition idle (c : child_id) (w : World) : Prop :=
  exists ch, children w !! c = Some ch /\ listeners ch = [].

(** Every queued [nextTick] callback has run. *)
Definition drain (w : World) : World :=
  run_events (repeat Tick (length (ticks w))) w.

(** An error of the child [c] has reached the error channel of the
    stage [s]. *)
Definition surfaced (s : stream_id) (c : child_id) (w : World) : Prop :=
  (s, c) ∈ errors w.

(** ** Scenarios *)

(** A file of the given contents written to the stage of [command] in a
    fresh process, followed by the events [es]. *)
Definition piped_in (command : string) (c : Contents) (es : list Event)
  : result World :=
  kw <-- run command (init ∅) ;;
  let '(f, w1) := new_file (mkFile "input" c) (snd kw) in
  Ok (run_events es (transform (fst kw) f (Done 0) w1)).

(** The parent's standard output after [run(command).exec(true)] in a
    fresh process whose child delivers the chunks [outs]. *)
Definition echo_of (command : string) (outs : list (option string))
  : result string :=
  kw <-- run command (init ∅) ;;
  let w := snd kw in
  Ok (stdout (run_events (map (Output (length (children w))) outs)
                (snd (exec (fst kw) true w)))).

(** The command of the test suite, and a stage holding one file. *)
Definition awk : Command :=
  mkCommand "awk" ["NR % 2 == 0"%string] 0.

Definition stage_with (c : Contents) : World :=
  mkWorld ∅ [mkFile "sample.input.txt" c] [] [] [mkObjStream [] false]
    [] [] EmptyString [] [].

(** ** Drivers and vocabulary of the further properties *)

(** The lines of [run] that read [cmd] and [args] off a tree. *)
Definition command_of_ast (ast : Node) : result (string * list string) :=
  e0 <-- of_option TypeError (elements ast !! 0%nat) ;;
  let cmd := textValue e0 in
  e2 <-- of_option TypeError (elements ast !! 2%nat) ;;
  args <-- collect_args (elements e2) [] ;;
  Ok (cmd, args).

(** The text [run] takes from a node of the argument list. *)
Definition arg_text_of (arg_node : Node) : string :=
  from_option textValue EmptyString (arg arg_node).

(** The stream machinery hands the items written to a stage to its
    [_transform] one at a time, the next one once the callback of the
    one before has run. *)
Definition feed (k : Command) (items : list (file_id * nat)) (w : World) : World :=
  foldl (fun w item => drain (transform k item.1 (Done item.2) w)) w items.

(** A file that is null or in streaming mode. *)
Definition passes_through (w : World) (f : file_id) : Prop :=
  exists file, files w !! f = Some file /\
    (contents file = CNull \/ exists src, contents file = CStream src).

Definition in_stream_mode (w : World) (f : file_id) : bool :=
  match files w !! f with
  | Some file => isStream file
  | None => false
  end.

(** The text an event adds to the output of a child. *)
Definition output_text (e : Event) : string :=
  match e with
  | Output _ o => text_of o
  | _ => EmptyString
  end.

(** Every stream of [w] is still there in [w'], with the items pushed to
    it so far at the front of its items, and ended as it was. *)
Definition grows (w w' : World) : Prop :=
  forall s st, streams w !! s = Some st ->
    exists st', streams w' !! s = Some st' /\
      pushed st `prefix_of` pushed st' /\ ended st' = ended st.

(** The helper [call(callback1)] of the test suite: the [_transform] of
    the stream it returns. *)
Definition call_transform (s : stream_id) (callback1 : Callback)
    (f : file_id) (callback2 : Callback) (w : World) : World :=
  nextTick callback1 (nextTick callback2 (push s f w)).

(** Items written to a [call] stream, one at a time. *)
Definition feed_call (s : stream_id) (callback1 : Callback)
    (items : list (file_id * nat)) (w : World) : World :=
  foldl (fun w item => drain (call_transform s callback1 item.1 (Done item.2) w))
    w items.

(** Two states of a child that differ at most by the output it has
    delivered. *)
Definition wired_alike (ch ch' : Child) : Prop :=
  program ch' = program ch /\ argv ch' = argv ch /\
  environ ch' = environ ch /\ stdin ch' = stdin ch /\
  listeners ch' = listeners ch.

(** * Properties *)

(** ** Strings *)

Section Strings.

Lemma str_app_nil_l (s : string) : EmptyString +:+ s = s.
Proof. reflexivity. Qed.

Lemma str_app_cons (c : ascii) (s t : string) :
  String c s +:+ t = String c (s +:+ t).
Proof. reflexivity. Qed.

Lemma str_app_nil_r (s : string) : s +:+ EmptyString = s.
Proof. induction s as [|c s IH]; [reflexivity|]. now rewrite str_app_cons, IH. Qed.

Lemma str_app_assoc (s t u : string) : (s +:+ t) +:+ u = s +:+ t +:+ u.
Proof.
  induction s as [|c s IH]; [reflexivity|]. now rewrite !str_app_cons, IH.
Qed.

Lemma str_length_app (s t : string) :
  String.length (s +:+ t) = String.length s + String.length t.
Proof.
  induction s as [|c s IH]; [reflexivity|]. rewrite str_app_cons. simpl. now rewrite IH.
Qed.

Lemma fit_exact (s : string) : fit (String.length s) s = s.
Proof. induction s as [|c s IH]; simpl; [reflexivity|]. now rewrite IH. Qed.

Lemma Buffer_concat_pair (a b : string) :
  Buffer_concat [a; b] (String.length a + String.length b) = a +:+ b.
Proof.
  unfold Buffer_concat. simpl. rewrite str_app_nil_r, <- str_length_app. apply fit_exact.
Qed.

End Strings.

(** ** The parser against the grammar *)

Module ParserFacts.

Import Parser Grammar.

Lemma eqb_false (c d : ascii) : c <> d -> Ascii.eqb c d = false.
Proof. intros H. now apply Ascii.eqb_neq. Qed.

Lemma is_bare_not_space c : is_bare c = true -> is_space c = false.
Proof. unfold is_bare. destruct (is_space c); [discriminate|reflexivity]. Qed.

Lemma is_bare_not_quote c :
  is_bare c = true -> Ascii.eqb c "034" = false /\ Ascii.eqb c "'" = false.
Proof.
  unfold is_bare, is_quote.
  destruct (is_space c), (Ascii.eqb c "034"), (Ascii.eqb c "'"); simpl;
    intros; try discriminate; auto.
Qed.

Lemma is_space_not_bare c : is_space c = true -> is_bare c = false.
Proof. unfold is_bare. now intros ->. Qed.

(** *** Soundness of the scanners *)

Lemma spaces_sound s m r :
  spaces s = (m, r) -> s = m +:+ r /\ Spaces m.
Proof.
  revert m r. induction s as [|c s IH]; simpl; intros m r H.
  - inversion H; subst. split; [reflexivity|constructor].
  - destruct (is_space c) eqn:Hc.
    + destruct (spaces s) as [m' r'] eqn:Hs. inversion H; subst.
      destruct (IH _ _ eq_refl) as [-> Hm]. split; [reflexivity|].
      now constructor.
    + inversion H; subst. split; [reflexivity|constructor].
Qed.

Lemma spaces_rest_no_space s m c r :
  spaces s = (m, String c r) -> is_space c = false.
Proof.
  revert m. induction s as [|d s IH]; simpl; intros m H; [discriminate|].
  destruct (is_space d) eqn:Hd.
  - destruct (spaces s) as [m' r'] eqn:Hs. inversion H; subst. eauto.
  - inversion H; subst. exact Hd.
Qed.

Lemma bare_run_sound s m r :
  bare_run s = (m, r) -> s = m +:+ r /\ (m = EmptyString \/ Bare m).
Proof.
  revert m r. induction s as [|c s IH]; simpl; intros m r H.
  - inversion H; subst. auto.
  - destruct (is_bare c) eqn:Hc.
    + destruct (bare_run s) as [m' r'] eqn:Hs. inversion H; subst.
      destruct (IH _ _ eq_refl) as [-> Hm]. split; [reflexivity|].
      right. destruct Hm as [-> | Hm]; [now constructor|now apply Bare_cons].
    + inversion H; subst. auto.
Qed.

Lemma bare_sound s lit raw r :
  bare s = Some (lit, raw, r) -> s = raw +:+ r /\ lit = raw /\ Bare raw.
Proof.
  unfold bare. destruct (bare_run s) as [m r'] eqn:Hs.
  destruct (bare_run_sound _ _ _ Hs) as [-> Hm].
  destruct m as [|c m]; [discriminate|]. intros H; inversion H; subst.
  destruct Hm as [Hm | Hm]; [discriminate|]. auto.
Qed.

Lemma single_body_sound s m r :
  single_body s = Some (m, r) ->
  s = m +:+ String "'" r /\ SingleBody m.
Proof.
  revert m r. induction s as [|c s IH]; simpl; intros m r H; [discriminate|].
  destruct (Ascii.eqb c "'") eqn:Hc.
  - apply Ascii.eqb_eq in Hc. inversion H; subst. split; [reflexivity|constructor].
  - apply Ascii.eqb_neq in Hc.
    destruct (single_body s) as [[m' r']|] eqn:Hs; [|discriminate].
    inversion H; subst. destruct (IH _ _ eq_refl) as [-> Hm].
    split; [reflexivity|now constructor].
Qed.

Lemma double_body_sound n s :
  String.length s <= n ->
  forall l m r,
  double_body s = Some (l, m, r) ->
  s = m +:+ String "034" r /\ DoubleBody m l.
Proof.
  revert s. induction n as [|n IH]; intros s Hn l m r H.
  - destruct s; [discriminate|simpl in Hn; lia].
  - destruct s as [|c s]; [discriminate|]. simpl in Hn, H.
    destruct (Ascii.eqb c "034") eqn:Hq.
    + apply Ascii.eqb_eq in Hq. inversion H; subst.
      split; [reflexivity|constructor].
    + apply Ascii.eqb_neq in Hq. destruct (Ascii.eqb c "\") eqn:Hb.
      * apply Ascii.eqb_eq in Hb. subst c.
        destruct s as [|e s]; [discriminate|].
        destruct (double_body s) as [[[l' m'] r']|] eqn:Hs; [|discriminate].
        inversion H; subst. simpl in Hn.
        destruct (IH s ltac:(lia) _ _ _ Hs) as [-> Hm].
        split; [reflexivity|now constructor].
      * apply Ascii.eqb_neq in Hb.
        destruct (double_body s) as [[[l' m'] r']|] eqn:Hs; [|discriminate].
        inversion H; subst.
        destruct (IH s ltac:(lia) _ _ _ Hs) as [-> Hm].
        split; [reflexivity|now constructor].
Qed.

Lemma argument_sound s lit raw r :
  argument s = Some (lit, raw, r) ->
  s = raw +:+ r /\ Argument raw lit.
Proof.
  unfold argument. destruct s as [|c s]; [discriminate|].
  destruct (Ascii.eqb c "034") eqn:Hq.
  - apply Ascii.eqb_eq in Hq. subst c.
    destruct (double_body s) as [[[l m] r']|] eqn:Hs; [|discriminate].
    intros H; inversion H; subst.
    destruct (double_body_sound _ s (le_n _) _ _ _ Hs) as [-> Hm].
    split; [now rewrite str_app_cons, str_app_assoc|]. now apply Argument_double.
  - destruct (Ascii.eqb c "'") eqn:Hs'.
    + apply Ascii.eqb_eq in Hs'. subst c.
      destruct (single_body s) as [[m r']|] eqn:Hs; [|discriminate].
      intros H; inversion H; subst.
      destruct (single_body_sound _ _ _ Hs) as [-> Hm].
      split; [now rewrite str_app_cons, str_app_assoc|]. now apply Argument_single.
    + intros H. apply bare_sound in H as (-> & -> & Hb).
      split; [reflexivity|now apply Argument_bare].
Qed.

Lemma Argument_nonempty raw lit :
  Argument raw lit -> exists c raw', raw = String c raw' /\ is_space c = false.
Proof.
  intros [raw' lit' _ | body _ | b Hb].
  - eexists _, _; split; reflexivity.
  - eexists _, _; split; reflexivity.
  - destruct Hb as [c Hc | c s Hc _]; eexists _, _;
      (split; [reflexivity|now apply is_bare_not_space]).
Qed.

(** *** The argument list *)

Lemma collect_args_cons sp raw lit ns acc :
  collect_args (mkNode (sp +:+ raw) [leaf sp; leaf lit] (Some (leaf lit)) :: ns) acc
  = collect_args ns (acc ++ [lit]).
Proof. reflexivity. Qed.

Lemma arglist_sound fuel s ns r :
  arglist fuel s = (ns, r) ->
  exists consumed lits,
    s = consumed +:+ r /\ Arglist consumed lits /\
    forall acc, collect_args ns acc = Ok (acc ++ lits).
Proof.
  revert s ns r. induction fuel as [|fuel IH]; simpl; intros s ns r H.
  - inversion H; subst. exists EmptyString, []. repeat split; [constructor|].
    intros acc. simpl. now rewrite List.app_nil_r.
  - destruct (spaces s) as [sp s1] eqn:Hsp.
    destruct (spaces_sound _ _ _ Hsp) as [-> HS].
    destruct (argument s1) as [[[lit raw] s2]|] eqn:Ha.
    + destruct (argument_sound _ _ _ _ Ha) as [-> HA].
      destruct (arglist fuel s2) as [ns' r'] eqn:Hl. inversion H; subst.
      destruct (IH _ _ _ Hl) as (consumed & lits & -> & HL & Hc).
      exists (sp +:+ raw +:+ consumed), (lit :: lits). repeat split.
      * now rewrite !str_app_assoc.
      * now constructor.
      * intros acc. rewrite collect_args_cons, Hc. now rewrite <- List.app_assoc.
    + inversion H; subst. exists EmptyString, []. repeat split; [constructor|].
      intros acc. simpl. now rewrite List.app_nil_r.
Qed.

Lemma Spaces_inv_cons c s : Spaces (String c s) -> is_space c = true /\ Spaces s.
Proof. inversion 1; auto. Qed.

Lemma Bare_inv c s :
  Bare (String c s) -> is_bare c = true /\ (s = EmptyString \/ Bare s).
Proof. inversion 1; auto. Qed.

Lemma AL_strip_space c x : is_space c = true -> AL (String c x) -> AL x.
Proof.
  intros Hc [lits H]. inversion H as [|sp raw lit rest lits' HS HA HL Heq]; subst.
  destruct sp as [|d sp].
  - rewrite str_app_nil_l in Heq.
    destruct (Argument_nonempty _ _ HA) as (e & raw' & -> & He).
    rewrite str_app_cons in Heq. inversion Heq; subst. congruence.
  - rewrite str_app_cons in Heq. inversion Heq; subst.
    apply Spaces_inv_cons in HS as [_ HS].
    eexists. now apply (Arglist_cons sp raw lit rest lits').
Qed.

Lemma AL_strip_bare c x : is_bare c = true -> AL (String c x) -> AL x.
Proof.
  intros Hc [lits H]. inversion H as [|sp raw lit rest lits' HS HA HL Heq]; subst.
  destruct sp as [|d sp].
  - rewrite str_app_nil_l in Heq. destruct (is_bare_not_quote _ Hc) as [Hq1 Hq2].
    destruct HA as [raw lit _ | body _ | b Hb].
    + rewrite str_app_cons in Heq. inversion Heq; subst. discriminate.
    + rewrite str_app_cons in Heq. inversion Heq; subst. discriminate.
    + destruct b as [|e b]; [inversion Hb|].
      rewrite str_app_cons in Heq. inversion Heq; subst.
      apply Bare_inv in Hb as [_ [-> | Hb]].
      * rewrite str_app_nil_l. now exists lits'.
      * eexists. apply (Arglist_cons EmptyString b b rest lits');
          [constructor|now apply Argument_bare|assumption].
  - rewrite str_app_cons in Heq. inversion Heq; subst.
    apply Spaces_inv_cons in HS as [HS _].
    apply is_space_not_bare in HS. congruence.
Qed.

Lemma spaces_app sp rest :
  Spaces sp ->
  spaces (sp +:+ rest) = (sp +:+ fst (spaces rest), snd (spaces rest)).
Proof.
  induction 1 as [|c s Hc _ IH].
  - rewrite !str_app_nil_l. now destruct (spaces rest).
  - rewrite !str_app_cons. simpl. rewrite Hc, IH. reflexivity.
Qed.

Lemma spaces_no_space c r :
  is_space c = false -> spaces (String c r) = (EmptyString, String c r).
Proof. intros H. simpl. now rewrite H. Qed.

Lemma bare_run_app b rest :
  Bare b ->
  bare_run (b +:+ rest) = (b +:+ fst (bare_run rest), snd (bare_run rest)).
Proof.
  induction 1 as [c Hc|c s Hc _ IH].
  - rewrite !str_app_cons, !str_app_nil_l. simpl. rewrite Hc.
    now destruct (bare_run rest).
  - rewrite !str_app_cons. simpl. rewrite Hc, IH. reflexivity.
Qed.

Lemma bare_run_length s : String.length (snd (bare_run s)) <= String.length s.
Proof.
  induction s as [|c s IH]; simpl; [lia|].
  destruct (is_bare c); [|simpl; lia].
  destruct (bare_run s); simpl in *. lia.
Qed.

Lemma AL_bare_run s : AL s -> AL (snd (bare_run s)).
Proof.
  induction s as [|c s IH]; simpl; intros H; [exact H|].
  destruct (is_bare c) eqn:Hc; [|exact H].
  apply AL_strip_bare in H; [|exact Hc]. apply IH in H.
  now destruct (bare_run s).
Qed.

Lemma double_body_complete raw lit r :
  DoubleBody raw lit -> double_body (raw +:+ String "034" r) = Some (lit, raw, r).
Proof.
  induction 1 as [|e raw lit _ IH|c raw lit Hq Hb _ IH].
  - reflexivity.
  - rewrite !str_app_cons. simpl. now rewrite IH.
  - rewrite str_app_cons. simpl.
    rewrite (eqb_false _ _ Hq), (eqb_false _ _ Hb), IH. reflexivity.
Qed.

Lemma single_body_complete body r :
  SingleBody body ->
  single_body (body +:+ String "'" r) = Some (body, r).
Proof.
  induction 1 as [|c s Hc _ IH].
  - reflexivity.
  - rewrite str_app_cons. simpl. rewrite (eqb_false _ _ Hc), IH. reflexivity.
Qed.

Lemma argument_complete raw lit rest :
  Argument raw lit -> AL rest ->
  exists lit' raw' s2,
    argument (raw +:+ rest) = Some (lit', raw', s2) /\ AL s2 /\
    String.length s2 < String.length (raw +:+ rest).
Proof.
  intros HA HL. destruct HA as [raw lit Hd | body Hs | b Hb].
  - exists lit, (String "034" (raw +:+ dq)), rest.
    rewrite str_app_cons, str_app_assoc. unfold dq. rewrite str_app_cons, str_app_nil_l.
    split; [|split; [exact HL|]].
    + simpl. now rewrite (double_body_complete _ _ _ Hd).
    + simpl. rewrite str_length_app. simpl. lia.
  - exists body, (String "'" (body +:+ String "'" EmptyString)), rest.
    rewrite str_app_cons, str_app_assoc, str_app_cons, str_app_nil_l.
    split; [|split; [exact HL|]].
    + simpl. now rewrite (single_body_complete _ _ Hs).
    + simpl. rewrite str_length_app. simpl. lia.
  - pose proof (bare_run_app b rest Hb) as Hrun.
    pose proof (bare_run_length rest) as Hlen.
    destruct b as [|c b]; [inversion Hb|].
    pose proof (Bare_inv _ _ Hb) as [Hc _].
    destruct (is_bare_not_quote _ Hc) as [Hq1 Hq2].
    exists (String c b +:+ fst (bare_run rest)),
           (String c b +:+ fst (bare_run rest)), (snd (bare_run rest)).
    split; [|split; [now apply AL_bare_run|]].
    + rewrite str_app_cons. unfold argument. rewrite Hq1, Hq2.
      rewrite <- str_app_cons. unfold bare. rewrite Hrun.
      now rewrite str_app_cons.
    + rewrite str_length_app. simpl. lia.
Qed.

Lemma arglist_S fuel s :
  arglist (S fuel) s =
  let '(sp, s1) := spaces s in
  match argument s1 with
  | Some (lit, raw, s2) =>
      let '(ns, r) := arglist fuel s2 in
      (mkNode (sp +:+ raw) [leaf sp; leaf lit] (Some (leaf lit)) :: ns, r)
  | None => ([], s)
  end.
Proof. reflexivity. Qed.

Lemma arglist_complete fuel s :
  String.length s <= fuel -> AL s ->
  exists ns, arglist fuel s = (ns, EmptyString).
Proof.
  revert s. induction fuel as [|fuel IH]; intros s Hlen HL.
  - destruct s; [|simpl in Hlen; lia]. now exists [].
  - destruct HL as [lits H].
    inversion H as [|sp raw lit rest lits' HS HA HR Heq]; subst.
    + now exists [].
    + destruct (Argument_nonempty _ _ HA) as (c & raw' & Hraw & Hc).
      destruct (argument_complete _ _ rest HA (ex_intro _ _ HR))
        as (lit' & raw2 & s2 & Harg & HL2 & Hlt).
      rewrite arglist_S, (spaces_app _ _ HS). subst raw.
      rewrite str_app_cons, (spaces_no_space _ _ Hc). cbn [fst snd].
      rewrite <- str_app_cons, Harg.
      rewrite str_length_app in Hlen.
      destruct (IH s2) as [ns Hns]; [lia|exact HL2|].
      rewrite Hns. eexists. reflexivity.
Qed.


(** *** The whole command *)

Lemma SA_bare_run s : SA s -> SA (snd (bare_run s)).
Proof.
  induction s as [|c s IH]; simpl; intros H; [exact H|].
  destruct (is_bare c) eqn:Hc; [|exact H].
  destruct H as (sp & al & HS & HL & Heq).
  destruct sp as [|d sp].
  - rewrite str_app_nil_l in Heq. subst al.
    apply AL_strip_bare in HL; [|exact Hc].
    assert (SA s) as Hs by (exists EmptyString, s; repeat split; [constructor|exact HL]).
    apply IH in Hs. now destruct (bare_run s).
  - rewrite str_app_cons in Heq. inversion Heq; subst.
    apply Spaces_inv_cons in HS as [HS _].
    apply is_space_not_bare in HS. congruence.
Qed.

Lemma SA_spaces s : SA s -> AL (snd (spaces s)).
Proof.
  induction s as [|c s IH]; simpl; intros H.
  - exists []. constructor.
  - destruct H as (sp & al & HS & HL & Heq). destruct (is_space c) eqn:Hc.
    + assert (SA s) as Hs.
      { destruct sp as [|d sp].
        - rewrite str_app_nil_l in Heq. subst al.
          apply AL_strip_space in HL; [|exact Hc].
          exists EmptyString, s. repeat split; [constructor|exact HL].
        - rewrite str_app_cons in Heq. inversion Heq; subst.
          apply Spaces_inv_cons in HS as [_ HS]. now exists sp, al. }
      apply IH in Hs. now destruct (spaces s).
    + destruct sp as [|d sp].
      * rewrite str_app_nil_l in Heq. now subst al.
      * rewrite str_app_cons in Heq. inversion Heq; subst.
        apply Spaces_inv_cons in HS as [HS _]. congruence.
Qed.

Lemma spaces_length s : String.length (snd (spaces s)) <= String.length s.
Proof.
  induction s as [|c s IH]; simpl; [lia|].
  destruct (is_space c); [|simpl; lia].
  destruct (spaces s); simpl in *. lia.
Qed.

Lemma Bare_nonempty p : Bare p -> p <> EmptyString.
Proof. now inversion 1. Qed.

(** What [command_of] returns, read off the scanners. *)
Lemma command_of_cases s :
  command_of s = Throw ParseError \/
  exists p args, command_of s = Ok (p, args) /\ CommandString s p args.
Proof.
  unfold command_of, parse.
  destruct (bare s) as [[[p raw] s1]|] eqn:Hb; [|now left].
  apply bare_sound in Hb as (-> & -> & Hp).
  destruct (spaces s1) as [sp s2] eqn:Hsp.
  destruct (spaces_sound _ _ _ Hsp) as [-> HS].
  destruct (arglist (String.length s2) s2) as [ns r] eqn:Hl.
  destruct r as [|c r]; [|now left].
  destruct (arglist_sound _ _ _ _ Hl) as (consumed & lits & -> & HL & Hc).
  right. exists raw, lits. simpl. rewrite (Hc []). simpl.
  split; [reflexivity|]. rewrite str_app_nil_r. now constructor.
Qed.

Lemma command_of_complete s :
  well_formed s -> exists p args, command_of s = Ok (p, args).
Proof.
  intros (p & lits & H). destruct H as [p sp al lits Hp HS HL].
  assert (SA (sp +:+ al)) as Hsa by (exists sp, al; repeat split; eauto; now exists lits).
  pose proof (bare_run_app p (sp +:+ al) Hp) as Hrun.
  apply SA_bare_run, SA_spaces in Hsa.
  unfold command_of, parse, bare. rewrite Hrun.
  destruct p as [|c p]; [inversion Hp|]. rewrite str_app_cons.
  destruct (spaces (snd (bare_run (sp +:+ al)))) as [sp' s2] eqn:Hsp.
  simpl in Hsa.
  destruct (arglist_complete (String.length s2) s2 (le_n _) Hsa) as [ns Hns].
  rewrite Hns.
  destruct (arglist_sound _ _ _ _ Hns) as (consumed & lits' & _ & _ & Hc).
  simpl. rewrite (Hc []). simpl. eauto.
Qed.

End ParserFacts.

(** ** The contract of the parser *)

Example command_of_awk :
  command_of ("awk " +:+ dq +:+ "NR % 2 == 0" +:+ dq)
  = Ok ("awk"%string, ["NR % 2 == 0"%string]).
Proof. reflexivity. Qed.

Example command_of_unterminated :
  command_of ("echo " +:+ dq +:+ "hi") = Throw ParseError.
Proof. reflexivity. Qed.

Example command_of_blank : command_of "  " = Throw ParseError.
Proof. reflexivity. Qed.

Example command_of_shell_characters :
  command_of "ls $HOME | wc -l"
  = Ok ("ls"%string, ["$HOME"%string; "|"%string; "wc"%string; "-l"%string]).
Proof. reflexivity. Qed.

(** C1: the command string made of [name], the single-quoted [a b] and
    the double-quoted c, escaped double quote, d parses to the program [name] and the two
    arguments [a b] and c, double quote, d, in that order, blanks inside the quotes
    kept and the quoting and the escape removed; every command string
    the grammar derives parses to a program, which is not empty, and a
    list of arguments; and any command string either fails to parse or
    yields a program and arguments that derive the whole string, never
    a tree [run] cannot read. *)
Theorem parse_yields_complete_command :
  command_of ("name 'a b' " +:+ dq +:+ "c" +:+ esc_dq +:+ "d" +:+ dq)
  = Ok ("name"%string, ["a b"%string; "c" +:+ dq +:+ "d"])
  /\ (forall s, Grammar.well_formed s ->
        exists p args, command_of s = Ok (p, args))
  /\ (forall s,
        command_of s = Throw ParseError \/
        exists p args,
          command_of s = Ok (p, args) /\ p <> EmptyString /\
          Grammar.CommandString s p args).
Proof.
  split; [reflexivity|]. split.
  - apply ParserFacts.command_of_complete.
  - intros s. destruct (ParserFacts.command_of_cases s) as [H | (p & args & H & HC)].
    + now left.
    + right. exists p, args. repeat split; try assumption.
      destruct HC as [p sp al lits Hp _ _]. now apply ParserFacts.Bare_nonempty.
Qed.

Lemma well_formed_ls : Grammar.well_formed "ls -la".
Proof.
  exists "ls"%string, ["-la"%string].
  change "ls -la"%string
    with ("ls" +:+ " " +:+ (EmptyString +:+ "-la" +:+ EmptyString)).
  constructor.
  - apply Grammar.Bare_cons; [reflexivity|]. now apply Grammar.Bare_one.
  - apply Grammar.Spaces_cons; [reflexivity|]. constructor.
  - constructor; [constructor| |constructor].
    apply Grammar.Argument_bare.
    repeat (first [now apply Grammar.Bare_one | apply Grammar.Bare_cons; [reflexivity|]]).
Defined.

Lemma parse_yields_complete_command_witness :
  exists p args, command_of "ls -la" = Ok (p, args).
Proof.
  destruct parse_yields_complete_command as (_ & H & _).
  apply (H "ls -la"%string). exact well_formed_ls.
Defined.

(** ** The runner *)

(** *** Heaps: allocation at the end, update in place *)

Section Heap.
Context {A : Type}.

Lemma lookup_snoc (l : list A) (x : A) : (l ++ [x]) !! length l = Some x.
Proof. now apply list_lookup_middle. Qed.

Lemma insert_snoc (l : list A) (x y : A) :
  <[length l := y]> (l ++ [x]) = l ++ [y].
Proof. rewrite insert_app_r_alt by lia. now rewrite Nat.sub_diag. Qed.

Lemma lookup_insert_same (l : list A) (i : nat) (x y : A) :
  l !! i = Some x -> <[i := y]> l !! i = Some y.
Proof. intros H. apply list_lookup_insert_eq. now apply lookup_lt_Some in H. Qed.

End Heap.

Ltac heap :=
  repeat first
    [ rewrite lookup_snoc | rewrite insert_snoc
    | rewrite list_insert_insert_eq
    | erewrite lookup_insert_same by eassumption ];
  cbn.

(** *** What [_transform] does, by the contents of the file *)

Section Transform.
Variables (k : Command) (f : file_id) (cb : Callback) (w : World) (file : File).
Hypothesis Hf : files w !! f = Some file.

Lemma transform_null :
  contents file = CNull ->
  transform k f cb w = nextTick cb (push (stage k) f w).
Proof. intros Hc. unfold transform, isNull. now rewrite Hf, Hc. Qed.

Lemma transform_stream src :
  contents file = CStream src ->
  transform k f cb w =
  nextTick cb
    (push (stage k) f
       (with_files
          (<[f := mkFile (path file) (CStream (ChildStdout (length (children w))))]> (files w))
          (with_children
             (children w ++
              [mkChild (cmd k) (args k) (env w) [PipedFrom f (CStream src)] [] []]) w))).
Proof.
  intros Hc. unfold transform, isNull, isStream. rewrite Hf, Hc.
  unfold spawn, stdin_op, update_child, set_contents. cbn. heap. now rewrite Hf.
Qed.

Lemma transform_buffer b :
  contents file = CBuffer b ->
  transform k f cb w =
  with_files (<[f := mkFile (path file) (CBuffer EmptyString)]> (files w))
    (with_children
       (children w ++
        [mkChild (cmd k) (args k) (env w) [PipedFrom f (CBuffer b)]
           [OnReadable f; OnEnd (stage k) f cb] []]) w).
Proof.
  intros Hc. unfold transform, isNull, isStream, isBuffer. rewrite Hf, Hc.
  unfold spawn, stdin_op, listen, update_child, set_contents. cbn. heap.
  rewrite Hf. cbn. heap. heap. reflexivity.
Qed.

Lemma transform_other v :
  contents file = COther v ->
  transform k f cb w =
  with_children
    (children w ++
     [mkChild (cmd k) (args k) (env w) [PipedFrom f (COther v)] [] []]) w.
Proof.
  intros Hc. unfold transform, isNull, isStream, isBuffer. rewrite Hf, Hc.
  unfold spawn, stdin_op, update_child. cbn. heap. reflexivity.
Qed.

End Transform.

Lemma chunks_of_cons o outs :
  chunks_of (o :: outs) = chunks_of [o] ++ chunks_of outs.
Proof. now destruct o. Qed.

Lemma joined_chunks_cons o outs :
  joined (chunks_of (o :: outs)) = text_of o +:+ joined (chunks_of outs).
Proof. destruct o; reflexivity. Qed.

(** *** A buffered transfer, event by event *)

Section Buffered.
Variables (c : child_id) (f : file_id) (s : stream_id) (cb : Callback) (p : string).

Lemma step_output_buffering acc o w :
  buffering c f s cb p acc w ->
  buffering c f s cb p (acc +:+ text_of o) (step w (Output c o)) /\
  streams (step w (Output c o)) = streams w /\
  ticks (step w (Output c o)) = ticks w /\
  called (step w (Output c o)) = called w.
Proof.
  intros [(ch & Hch & Hl) Hf]. unfold step. rewrite Hch, Hl.
  destruct o as [data|]; cbn.
  - unfold record_output, update_child. rewrite Hch. cbn. rewrite Hf. cbn.
    unfold set_contents. cbn. rewrite Hf. cbn.
    rewrite Buffer_concat_pair. split; [split|repeat split].
    + eexists. split; [eapply lookup_insert_same; eassumption|exact Hl].
    + eapply lookup_insert_same; eassumption.
  - rewrite str_app_nil_r. split; [split; eauto|repeat split].
Qed.

Lemma run_outputs_buffering outs : forall acc w,
  buffering c f s cb p acc w ->
  buffering c f s cb p (acc +:+ joined (chunks_of outs)) (run_events (map (Output c) outs) w) /\
  streams (run_events (map (Output c) outs) w) = streams w /\
  ticks (run_events (map (Output c) outs) w) = ticks w /\
  called (run_events (map (Output c) outs) w) = called w.
Proof.
  induction outs as [|o outs IH]; intros acc w H.
  - cbn. rewrite str_app_nil_r. auto.
  - destruct (step_output_buffering acc o w H) as (H1 & Hs & Ht & Hc).
    destruct (IH _ _ H1) as (H2 & Hs2 & Ht2 & Hc2).
    rewrite joined_chunks_cons, <- str_app_assoc.
    change (run_events (map (Output c) (o :: outs)) w)
      with (run_events (map (Output c) outs) (step w (Output c o))).
    split; [exact H2|]. repeat split; congruence.
Qed.

Lemma step_end_buffering acc w :
  buffering c f s cb p acc w ->
  step w (End c) = nextTick cb (push s f w).
Proof. intros [(ch & Hch & Hl) Hf]. unfold step. now rewrite Hch, Hl. Qed.

End Buffered.

(** *** Running the queued callbacks *)

Lemma run_ticks q : forall w,
  ticks w = q ->
  called (run_events (repeat Tick (length q)) w) = called w ++ q /\
  ticks (run_events (repeat Tick (length q)) w) = [] /\
  files (run_events (repeat Tick (length q)) w) = files w /\
  streams (run_events (repeat Tick (length q)) w) = streams w.
Proof.
  induction q as [|cb q IH]; intros w Hq.
  - cbn. now rewrite List.app_nil_r.
  - change (run_events (repeat Tick (length (cb :: q))) w)
      with (run_events (repeat Tick (length q)) (step w Tick)).
    unfold step. rewrite Hq.
    destruct (IH (with_called (called w ++ [cb]) (with_ticks q w)) eq_refl)
      as (H1 & H2 & H3 & H4).
    rewrite H1, H2, H3, H4. cbn. now rewrite <- List.app_assoc.
Qed.

Lemma drain_spec w :
  called (drain w) = called w ++ ticks w /\ ticks (drain w) = [] /\
  files (drain w) = files w /\ streams (drain w) = streams w.
Proof. apply run_ticks. reflexivity. Qed.

Lemma push_fields s f w st :
  streams w !! s = Some st ->
  streams (push s f w) !! s = Some (mkObjStream (pushed st ++ [f]) (ended st)) /\
  files (push s f w) = files w /\ children (push s f w) = children w /\
  ticks (push s f w) = ticks w /\ called (push s f w) = called w.
Proof.
  intros H. unfold push. rewrite H. cbn. repeat split.
  eapply lookup_insert_same; eassumption.
Qed.

(** C2: for a file in buffered mode, whatever chunks the stdout of the
    child delivers, and in the order it delivers them, the stage
    gathers them into one buffer held by the file; as long as the end of
    the output has not come, nothing is pushed downstream and [done] is
    neither scheduled nor called; at the end of the output the same
    file, its contents the concatenation of all the chunks, is pushed
    and [done] is scheduled, and it is called once the queued callbacks
    have run. *)
Theorem buffered_output_forwarded_at_end k f d w file b st outs :
  files w !! f = Some file -> contents file = CBuffer b ->
  streams w !! stage k = Some st ->
  let c := length (children w) in
  let w1 := run_events (map (Output c) outs) (transform k f (Done d) w) in
  let w2 := step w1 (End c) in
  (files w1 !! f = Some (mkFile (path file) (CBuffer (joined (chunks_of outs)))) /\
   streams w1 = streams w /\ ticks w1 = ticks w /\ called w1 = called w) /\
  (files w2 !! f = Some (mkFile (path file) (CBuffer (joined (chunks_of outs)))) /\
   streams w2 !! stage k = Some (mkObjStream (pushed st ++ [f]) (ended st)) /\
   ticks w2 = ticks w ++ [Done d] /\
   called (drain w2) = called w ++ ticks w ++ [Done d]).
Proof.
  intros Hf Hc Hst c w1 w2.
  assert (buffering c f (stage k) (Done d) (path file) EmptyString
            (transform k f (Done d) w)) as Hb.
  { rewrite (transform_buffer _ _ _ _ _ Hf b Hc). split.
    - eexists. cbn. split; [apply lookup_snoc|reflexivity].
    - cbn. eapply lookup_insert_same; eassumption. }
  destruct (run_outputs_buffering c f (stage k) (Done d) (path file) outs _ _ Hb)
    as (Hb1 & Hs1 & Ht1 & Hc1).
  fold w1 in Hb1, Hs1, Ht1, Hc1. rewrite str_app_nil_l in Hb1.
  rewrite (transform_buffer _ _ _ _ _ Hf b Hc) in Hs1, Ht1, Hc1. cbn in Hs1, Ht1, Hc1.
  split; [split; [apply Hb1|auto]|].
  unfold w2. rewrite (step_end_buffering _ _ _ _ _ _ _ Hb1).
  assert (streams w1 !! stage k = Some st) as Hst1 by now rewrite Hs1.
  destruct (push_fields (stage k) f w1 st Hst1) as (Hp & Hpf & _ & Hpt & Hpc).
  destruct (drain_spec (nextTick (Done d) (push (stage k) f w1))) as (Hd & _).
  rewrite Hd. unfold nextTick. cbn. rewrite Hpf, Hpt, Hpc, Ht1, Hc1.
  split; [apply Hb1|auto].
Qed.

(** The even lines of the sample, delivered in two chunks with an empty
    read between them. *)
Lemma buffered_output_forwarded_at_end_witness :
  files
    (step
       (run_events
          (map (Output 0) [Some ("2" +:+ nl); None; Some ("4" +:+ nl)])
          (transform awk 0 (Done 0)
             (stage_with
                (CBuffer ("1" +:+ nl +:+ "2" +:+ nl +:+ "3" +:+ nl +:+ "4" +:+ nl)))))
       (End 0)) !! 0%nat
  = Some (mkFile "sample.input.txt" (CBuffer ("2" +:+ nl +:+ "4" +:+ nl))).
Proof.
  exact
    (proj1 (proj2
       (buffered_output_forwarded_at_end awk 0 0
          (stage_with
             (CBuffer ("1" +:+ nl +:+ "2" +:+ nl +:+ "3" +:+ nl +:+ "4" +:+ nl)))
          (mkFile "sample.input.txt"
             (CBuffer ("1" +:+ nl +:+ "2" +:+ nl +:+ "3" +:+ nl +:+ "4" +:+ nl)))
          _ (mkObjStream [] false)
          [Some ("2" +:+ nl); None; Some ("4" +:+ nl)]
          eq_refl eq_refl eq_refl))).
Defined.


(** *** A child nothing listens to *)

Lemma step_idle c e w :
  idle c w -> about c e ->
  idle c (step w e) /\
  files (step w e) = files w /\ streams (step w e) = streams w /\
  called (step w e) ++ ticks (step w e) = called w ++ ticks w /\
  errors (step w e) = errors w /\ stdout (step w e) = stdout w.
Proof.
  intros (ch & Hch & Hl) He. destruct e as [c' o|c'|c'|]; cbn in He; subst.
  - unfold step. rewrite Hch, Hl. cbn. destruct o as [data|].
    + unfold record_output, update_child. rewrite Hch. cbn.
      split; [|repeat split]. eexists. split; [eapply lookup_insert_same; eassumption|exact Hl].
    + split; [|repeat split]. now exists ch.
  - unfold step. rewrite Hch, Hl. cbn. split; [|repeat split]. now exists ch.
  - unfold step. rewrite Hch. cbn. split; [|repeat split]. now exists ch.
  - unfold step. destruct (ticks w) as [|cb q] eqn:Ht; cbn.
    + rewrite Ht. split; [|repeat split]. now exists ch.
    + split; [now exists ch|]. repeat split. now rewrite <- List.app_assoc.
Qed.

Lemma run_events_idle c es : forall w,
  idle c w -> Forall (about c) es ->
  idle c (run_events es w) /\
  files (run_events es w) = files w /\ streams (run_events es w) = streams w /\
  called (run_events es w) ++ ticks (run_events es w) = called w ++ ticks w /\
  errors (run_events es w) = errors w /\ stdout (run_events es w) = stdout w.
Proof.
  induction es as [|e es IH]; intros w Hi Hes.
  - split; [exact Hi|repeat split].
  - apply Forall_cons in Hes as [He Hes].
    destruct (step_idle c e w Hi He) as (Hi1 & Hf1 & Hs1 & Hc1 & He1 & Ho1).
    destruct (IH _ Hi1 Hes) as (Hi2 & Hf2 & Hs2 & Hc2 & He2 & Ho2).
    change (run_events (e :: es) w) with (run_events es (step w e)).
    split; [exact Hi2|]. repeat split; congruence.
Qed.

(** C3: for a file in streaming mode, when [_transform] returns the
    contents of the file are the stdout stream of the child just
    spawned, the same file object has been pushed downstream and [done]
    is scheduled (and is called once the queued callbacks have run),
    all of it before any event of the child: the child has delivered
    nothing and nothing listens to it, so whatever it does later the
    stage neither touches the file nor pushes again. *)
Theorem streaming_forwards_child_stdout_at_once k f d w file src st :
  files w !! f = Some file -> contents file = CStream src ->
  streams w !! stage k = Some st ->
  let c := length (children w) in
  let w1 := transform k f (Done d) w in
  files w1 !! f = Some (mkFile (path file) (CStream (ChildStdout c))) /\
  length (files w1) = length (files w) /\
  streams w1 !! stage k = Some (mkObjStream (pushed st ++ [f]) (ended st)) /\
  ticks w1 = ticks w ++ [Done d] /\
  called (drain w1) = called w ++ ticks w ++ [Done d] /\
  children w1 =
    children w ++
    [mkChild (cmd k) (args k) (env w) [PipedFrom f (CStream src)] [] []] /\
  forall es, Forall (about c) es ->
    files (run_events es w1) = files w1 /\
    streams (run_events es w1) = streams w1.
Proof.
  intros Hf Hc Hst c w1. unfold w1.
  rewrite (transform_stream _ _ _ _ _ Hf src Hc).
  match goal with
  | |- context [drain ?W] => destruct (drain_spec W) as (Hd & _)
  end.
  rewrite Hd. unfold nextTick, push. cbn. rewrite Hst.
  split; [|split; [|split; [|split; [|split; [|split]]]]].
  - cbn. eapply lookup_insert_same; eassumption.
  - cbn. apply length_insert.
  - cbn. eapply lookup_insert_same; eassumption.
  - reflexivity.
  - reflexivity.
  - reflexivity.
  - intros es Hes.
    match goal with
    | |- context [run_events es ?W] =>
        destruct (run_events_idle c es W) as (_ & H1 & H2 & _)
    end; [|exact Hes|now split].
    eexists. cbn. split; [apply lookup_snoc|reflexivity].
Qed.

Lemma streaming_forwards_child_stdout_at_once_witness :
  files (transform awk 0 (Done 0) (stage_with (CStream (SourceStream 0)))) !! 0%nat
  = Some (mkFile "sample.input.txt" (CStream (ChildStdout 0))).
Proof.
  exact
    (proj1
       (streaming_forwards_child_stdout_at_once awk 0 0
          (stage_with (CStream (SourceStream 0)))
          (mkFile "sample.input.txt" (CStream (SourceStream 0)))
          (SourceStream 0) (mkObjStream [] false) eq_refl eq_refl eq_refl)).
Defined.


(** C6: for a null file, [_transform] pushes the same file object
    downstream and schedules [done] (called once the queued callbacks
    have run); the heap of files is unchanged, so no field of the file
    is modified, and no child process is spawned: the children, the
    environment, the tees and the standard output are as before. *)
Theorem null_file_passes_through k f d w file st :
  files w !! f = Some file -> contents file = CNull ->
  streams w !! stage k = Some st ->
  let w1 := transform k f (Done d) w in
  files w1 = files w /\
  children w1 = children w /\
  streams w1 !! stage k = Some (mkObjStream (pushed st ++ [f]) (ended st)) /\
  ticks w1 = ticks w ++ [Done d] /\
  called (drain w1) = called w ++ ticks w ++ [Done d] /\
  env w1 = env w /\ tees w1 = tees w /\ stdout w1 = stdout w.
Proof.
  intros Hf Hc Hst w1. unfold w1.
  rewrite (transform_null _ _ _ _ _ Hf Hc).
  match goal with
  | |- context [drain ?W] => destruct (drain_spec W) as (Hd & _)
  end.
  rewrite Hd. unfold nextTick, push. rewrite Hst. cbn. repeat split.
  eapply lookup_insert_same; eassumption.
Qed.

Lemma null_file_passes_through_witness :
  files (transform awk 0 (Done 0) (stage_with CNull)) = files (stage_with CNull) /\
  children (transform awk 0 (Done 0) (stage_with CNull)) = [].
Proof.
  pose proof
    (null_file_passes_through awk 0 0 (stage_with CNull)
       (mkFile "sample.input.txt" CNull) (mkObjStream [] false)
       eq_refl eq_refl eq_refl) as (H1 & H2 & _).
  split; [exact H1|exact H2].
Defined.


Lemma transform_other_idle k f cb w file v :
  files w !! f = Some file -> contents file = COther v ->
  idle (length (children w)) (transform k f cb w).
Proof.
  intros Hf Hc. rewrite (transform_other _ _ _ _ _ Hf v Hc).
  eexists. cbn. split; [apply lookup_snoc|reflexivity].
Qed.

Lemma children_push s f w : children (push s f w) = children w.
Proof. unfold push. now destruct (streams w !! s). Qed.

Lemma transform_non_null_children k f cb w file :
  files w !! f = Some file -> contents file <> CNull ->
  exists ls,
    children (transform k f cb w) =
      children w ++
      [mkChild (cmd k) (args k) (env w) [PipedFrom f (contents file)] ls []].
Proof.
  intros Hf Hn. destruct (contents file) as [|b|src|v] eqn:Hc; [congruence|..].
  - rewrite (transform_buffer _ _ _ _ _ Hf b Hc). cbn. eauto.
  - rewrite (transform_stream _ _ _ _ _ Hf src Hc). unfold nextTick. cbn.
    rewrite children_push. cbn. eauto.
  - rewrite (transform_other _ _ _ _ _ Hf v Hc). cbn. eauto.
Qed.

(** C10: for every file that is not null, whatever its contents,
    [_transform] spawns a child with the command and its arguments and
    pipes the file, with the contents it came with, into the stdin of
    that child, before it looks at the representation.  When the
    contents are neither a Stream nor a Buffer that is all it does: the
    world differs from the one before only by the new child, so the
    file is not pushed, [done] is not scheduled and no error is raised;
    and whatever that child does afterwards, the file is never pushed
    and [done] is never scheduled or called. *)
Theorem non_null_file_spawns_and_other_is_dropped k f d w file :
  files w !! f = Some file -> contents file <> CNull ->
  let c := length (children w) in
  let w1 := transform k f (Done d) w in
  (exists ls,
     children w1 =
       children w ++
       [mkChild (cmd k) (args k) (env w) [PipedFrom f (contents file)] ls []]) /\
  (forall v, contents file = COther v ->
     w1 = with_children
            (children w ++
             [mkChild (cmd k) (args k) (env w) [PipedFrom f (COther v)] [] []]) w /\
     forall es, Forall (about c) es ->
       files (run_events es w1) = files w /\
       streams (run_events es w1) = streams w /\
       called (run_events es w1) ++ ticks (run_events es w1) = called w ++ ticks w /\
       errors (run_events es w1) = errors w).
Proof.
  intros Hf Hn c w1. split.
  - now apply transform_non_null_children.
  - intros v Hc. split; [apply (transform_other _ _ _ _ _ Hf v Hc)|].
    intros es Hes.
    destruct (run_events_idle c es w1 (transform_other_idle k f (Done d) w file v Hf Hc) Hes)
      as (_ & H1 & H2 & H3 & H4 & _).
    unfold w1 in *. rewrite (transform_other _ _ _ _ _ Hf v Hc) in H1, H2, H3, H4 |- *.
    cbn in H1, H2, H3, H4. auto.
Qed.

Lemma non_null_file_spawns_and_other_is_dropped_witness :
  exists ls,
    children (transform awk 0 (Done 0) (stage_with (COther "text"))) =
    [mkChild "awk" ["NR % 2 == 0"%string] ∅ [PipedFrom 0 (COther "text")] ls []].
Proof.
  refine
    (proj1
       (non_null_file_spawns_and_other_is_dropped awk 0 0
          (stage_with (COther "text"))
          (mkFile "sample.input.txt" (COther "text")) eq_refl _)).
  discriminate.
Defined.


(** C8, at the input where the code departs from it: for a file whose
    contents are neither null, a Stream nor a Buffer, [done] is not
    called once but never.  If it is neither queued nor called before
    [_transform], it is neither queued nor called after it, whatever
    events of the child spawned for the file and however many ticks
    follow. *)
Theorem done_never_called_for_other_contents k f d w file v es :
  files w !! f = Some file -> contents file = COther v ->
  Done d ∉ called w ++ ticks w ->
  Forall (about (length (children w))) es ->
  let w1 := run_events es (transform k f (Done d) w) in
  Done d ∉ called w1 ++ ticks w1.
Proof.
  intros Hf Hc Hd Hes w1.
  destruct (run_events_idle _ es _ (transform_other_idle k f (Done d) w file v Hf Hc) Hes)
    as (_ & _ & _ & H & _).
  unfold w1. rewrite H, (transform_other _ _ _ _ _ Hf v Hc). exact Hd.
Qed.

Lemma done_never_called_for_other_contents_witness :
  Done 0 ∉
    called
      (run_events [Output 0 (Some "x"%string); End 0; Tick; Tick]
         (transform awk 0 (Done 0) (stage_with (COther "text")))) ++
    ticks
      (run_events [Output 0 (Some "x"%string); End 0; Tick; Tick]
         (transform awk 0 (Done 0) (stage_with (COther "text")))).
Proof.
  refine
    (done_never_called_for_other_contents awk 0 0
       (stage_with (COther "text"))
       (mkFile "sample.input.txt" (COther "text")) "text"
       [Output 0 (Some "x"%string); End 0; Tick; Tick] eq_refl eq_refl _ _).
  - apply not_elem_of_nil.
  - repeat constructor.
Defined.


(** *** The error channel of a stage *)

Lemma errors_on_output o w l : errors (on_output o w l) = errors w.
Proof.
  unfold on_output, set_contents, tee_transform, nextTick.
  repeat case_match; reflexivity.
Qed.

Lemma errors_on_end w l : errors (on_end w l) = errors w.
Proof. unfold on_end, nextTick, push. repeat case_match; reflexivity. Qed.

Lemma errors_foldl {A} (h : World -> A -> World) (ls : list A) :
  (forall w l, errors (h w l) = errors w) ->
  forall w, errors (foldl h w ls) = errors w.
Proof.
  intros Hh. induction ls as [|l ls IH]; intros w; [reflexivity|].
  cbn. now rewrite IH, Hh.
Qed.

Lemma errors_step w e : errors (step w e) = errors w.
Proof.
  destruct e as [c o|c|c|]; unfold step.
  - destruct (children w !! c); [|reflexivity].
    rewrite (errors_foldl _ _ (errors_on_output o)).
    unfold record_output, update_child. repeat case_match; reflexivity.
  - destruct (children w !! c); [|reflexivity].
    apply (errors_foldl _ _ errors_on_end).
  - now destruct (children w !! c).
  - now destruct (ticks w).
Qed.

Lemma errors_run_events es w : errors (run_events es w) = errors w.
Proof. apply errors_foldl. apply errors_step. Qed.

Lemma errors_transform k f cb w : errors (transform k f cb w) = errors w.
Proof.
  unfold transform, spawn, stdin_op, listen, update_child, set_contents,
    nextTick, push.
  cbn. repeat (case_match; cbn); reflexivity.
Qed.

Lemma errors_exec k print w : errors (snd (exec k print w)) = errors w.
Proof.
  unfold exec, exec_stream_end, new_stream, new_file, tee, spawn, stdin_op,
    listen, update_child, nextTick, push.
  destruct print; cbn; repeat (case_match; cbn); reflexivity.
Qed.

(** C9, amended: when a child fails to spawn, its [error] event finds
    no listener of the stage and is thrown as an uncaught exception of
    the process; nothing is put on the error channel of the stage, no
    file is pushed and no callback is scheduled or called on account of
    it.  Indeed no call of [_transform] or [exec] and no event ever puts
    an error on the error channel of a stage. *)
Theorem spawn_failure_is_thrown_not_surfaced :
  (forall w c ch, children w !! c = Some ch ->
     uncaught (step w (SpawnError c)) = uncaught w ++ [c] /\
     errors (step w (SpawnError c)) = errors w /\
     streams (step w (SpawnError c)) = streams w /\
     ticks (step w (SpawnError c)) = ticks w /\
     called (step w (SpawnError c)) = called w /\
     files (step w (SpawnError c)) = files w) /\
  (forall k f d w, errors (transform k f (Done d) w) = errors w) /\
  (forall k print w, errors (snd (exec k print w)) = errors w) /\
  (forall es w, errors (run_events es w) = errors w).
Proof.
  split; [|split; [|split]].
  - intros w c ch H. unfold step. rewrite H. repeat split.
  - intros. apply errors_transform.
  - intros. apply errors_exec.
  - intros. apply errors_run_events.
Qed.

Lemma spawn_failure_is_thrown_not_surfaced_witness :
  uncaught
    (step (transform awk 0 (Done 0) (stage_with (CBuffer "x"))) (SpawnError 0))
  = [0%nat] /\
  errors
    (step (transform awk 0 (Done 0) (stage_with (CBuffer "x"))) (SpawnError 0))
  = [].
Proof.
  destruct spawn_failure_is_thrown_not_surfaced as (H & _).
  destruct
    (H (transform awk 0 (Done 0) (stage_with (CBuffer "x"))) 0%nat
       (mkChild "awk" ["NR % 2 == 0"%string] ∅ [PipedFrom 0 (CBuffer "x")]
          [OnReadable 0; OnEnd 0 0 (Done 0)] []) eq_refl)
    as (H1 & H2 & _).
  split; [exact H1|exact H2].
Defined.


(** A Buffer file piped into the stage of a program that cannot be
    spawned: after the [error] event of the child, the error channel of
    the stage is empty; the error is an uncaught exception, nothing was
    pushed and no callback is queued or was called. *)
Lemma spawn_failure_not_surfaced_example :
  exists w,
    piped_in "no-such-program" (CBuffer "x") [SpawnError 0] = Ok w /\
    ~ surfaced 0 0 w /\ uncaught w = [0] /\
    pushed <$> streams w = [[]] /\ ticks w = [] /\ called w = [].
Proof.
  eexists. split; [vm_compute; reflexivity|].
  unfold surfaced. repeat split. apply not_elem_of_nil.
Qed.

(** C7, amended: constructing a command overwrites [PATH] in the
    shared environment of the process, in place, with the local binary
    directory prepended to the value it had ([undefined] when it had
    none); every child, of [_transform] and of [exec], is spawned with
    that shared environment as it stands at the time of the spawn. *)
Theorem run_mutates_the_shared_environment :
  (forall command w k w', run command w = Ok (k, w') ->
     env w' = <["PATH"%string := "./node_modules/.bin:" +:+ PATH_of (env w)]> (env w) /\
     PATH_of (env w') = "./node_modules/.bin:" +:+ PATH_of (env w)) /\
  (forall k f d w file, files w !! f = Some file -> contents file <> CNull ->
     exists ch,
       children (transform k f (Done d) w) !! length (children w) = Some ch /\
       environ ch = env w) /\
  (forall k print w,
     exists ch,
       children (snd (exec k print w)) !! length (children w) = Some ch /\
       environ ch = env w).
Proof.
  split; [|split].
  - intros command w k w' H. unfold run in H.
    destruct (command_of command) as [[c a]|e]; [|discriminate].
    cbn in H. inversion H; subst. cbn. split; [reflexivity|].
    unfold PATH_of at 1. now rewrite lookup_insert_eq.
  - intros k f d w file Hf Hn.
    destruct (transform_non_null_children k f (Done d) w file Hf Hn) as (ls & Hch).
    eexists. rewrite Hch. split; [apply lookup_snoc|reflexivity].
  - intros k print w. unfold exec, exec_stream_end, new_stream, new_file, tee,
      spawn, stdin_op, listen, update_child, nextTick, push.
    destruct print; cbn; heap; cbn; heap; eexists; (split; [apply lookup_snoc|reflexivity]).
Qed.

Lemma run_mutates_the_shared_environment_witness :
  exists k w',
    run "ls" (init {[ "PATH"%string := "/usr/bin"%string ]}) = Ok (k, w') /\
    PATH_of (env w') = "./node_modules/.bin:/usr/bin"%string.
Proof.
  destruct run_mutates_the_shared_environment as (H & _).
  eexists _, _. split; [reflexivity|].
  etransitivity;
    [exact (proj2 (H "ls"%string (init {[ "PATH"%string := "/usr/bin"%string ]})
                     _ _ eq_refl))|].
  vm_compute. reflexivity.
Defined.


(** Constructing a command does change the shared environment:
    [PATH] is not what it was. *)
Lemma run_mutates_shared_env_example :
  ~ (forall command w k w', run command w = Ok (k, w') -> env w' = env w).
Proof.
  intros H.
  specialize (H "ls"%string (init {[ "PATH"%string := "/usr/bin"%string ]}) _ _ eq_refl).
  apply (f_equal (fun e => e !! "PATH"%string)) in H. cbn in H.
  rewrite lookup_insert_eq, lookup_singleton_eq in H. discriminate.
Qed.

(** *** A child piped into a tee *)

Section Piping.
Variables (c : child_id) (t : tee_id) (ttl : string).

Lemma step_output_piping chunks o w :
  piping c t ttl chunks w ->
  piping c t ttl (chunks ++ chunks_of [o]) (step w (Output c o)) /\
  stdout (step w (Output c o)) = stdout w +:+ echoed ttl (chunks_of [o]) /\
  files (step w (Output c o)) = files w /\
  streams (step w (Output c o)) = streams w.
Proof.
  intros [(ch & Hch & Hl & He) Ht]. unfold step. rewrite Hch, Hl.
  destruct o as [data|]; cbn.
  - unfold record_output, update_child. rewrite Hch. cbn.
    unfold tee_transform. cbn. rewrite Ht. cbn. rewrite He.
    split; [split|repeat split].
    + eexists. split; [eapply lookup_insert_same; eassumption|]. now split.
    + eapply lookup_insert_same; eassumption.
    + unfold echoed. cbn. now rewrite str_app_nil_r.
  - rewrite List.app_nil_r. unfold echoed. cbn. rewrite str_app_nil_r.
    split; [split; eauto|repeat split].
Qed.

Lemma echoed_app xs ys : echoed ttl (xs ++ ys) = echoed ttl xs +:+ echoed ttl ys.
Proof.
  unfold echoed, joined. induction xs as [|x xs IH]; [reflexivity|].
  cbn. now rewrite IH, <- str_app_assoc.
Qed.

Lemma run_outputs_piping outs : forall chunks w,
  piping c t ttl chunks w ->
  piping c t ttl (chunks ++ chunks_of outs) (run_events (map (Output c) outs) w) /\
  stdout (run_events (map (Output c) outs) w)
    = stdout w +:+ echoed ttl (chunks_of outs) /\
  files (run_events (map (Output c) outs) w) = files w /\
  streams (run_events (map (Output c) outs) w) = streams w.
Proof.
  induction outs as [|o outs IH]; intros chunks w H.
  - cbn. rewrite List.app_nil_r, str_app_nil_r. split; [exact H|repeat split].
  - destruct (step_output_piping chunks o w H) as (H1 & Ho1 & Hf1 & Hs1).
    destruct (IH _ _ H1) as (H2 & Ho2 & Hf2 & Hs2).
    change (run_events (map (Output c) (o :: outs)) w)
      with (run_events (map (Output c) outs) (step w (Output c o))).
    rewrite (chunks_of_cons o outs), List.app_assoc, echoed_app, <- str_app_assoc.
    split; [exact H2|]. repeat split; congruence.
Qed.

End Piping.

Lemma run_outputs_idle_emitted c outs : forall w ch,
  children w !! c = Some ch -> listeners ch = [] ->
  exists ch', children (run_events (map (Output c) outs) w) !! c = Some ch' /\
    emitted ch' = emitted ch ++ chunks_of outs /\
    files (run_events (map (Output c) outs) w) = files w /\
    streams (run_events (map (Output c) outs) w) = streams w.
Proof.
  induction outs as [|o outs IH]; intros w ch Hch Hl.
  - exists ch. cbn. rewrite List.app_nil_r. auto.
  - change (run_events (map (Output c) (o :: outs)) w)
      with (run_events (map (Output c) outs) (step w (Output c o))).
    rewrite (chunks_of_cons o outs).
    destruct o as [data|].
    + edestruct (IH (step w (Output c (Some data)))) as (ch' & H1 & H2 & H3 & H4).
      * unfold step. rewrite Hch, Hl. cbn. unfold record_output, update_child.
        rewrite Hch. cbn. eapply lookup_insert_same; eassumption.
      * exact Hl.
      * exists ch'. split; [exact H1|]. cbn in H2. rewrite H2, <- List.app_assoc.
        split; [reflexivity|]. rewrite H3, H4. unfold step. rewrite Hch, Hl. cbn.
        unfold record_output, update_child. rewrite Hch. cbn. auto.
    + assert (step w (Output c None) = w) as -> by (unfold step; now rewrite Hch, Hl).
      apply (IH w ch Hch Hl).
Qed.

(** *** What [exec] does *)

Section Exec.
Variables (k : Command) (w : World).

Lemma exec_quiet :
  exec k false w =
  (length (streams w),
   with_streams (streams w ++ [mkObjStream [length (files w)] true])
     (with_ticks (ticks w ++ [ExecCallback (length (streams w))])
        (with_files
           (files w ++ [mkFile (cmd k) (CStream (ChildStdout (length (children w))))])
           (with_children
              (children w ++ [mkChild (cmd k) (args k) (env w) [StdinEnd] [] []])
              w)))).
Proof.
  unfold exec, exec_stream_end, new_stream, new_file, spawn, stdin_op,
    update_child, nextTick, push.
  cbn. heap. heap. reflexivity.
Qed.

Lemma exec_print :
  exec k true w =
  (length (streams w),
   with_streams (streams w ++ [mkObjStream [length (files w)] true])
     (with_ticks (ticks w ++ [ExecCallback (length (streams w))])
        (with_files
           (files w ++ [mkFile (cmd k) (CStream (TeeStream (length (tees w))))])
           (with_tees (tees w ++ [mkTee (cmd k) []])
              (with_children
                 (children w ++
                  [mkChild (cmd k) (args k) (env w) [StdinEnd]
                     [PipeTo (length (tees w))] []])
                 w))))).
Proof.
  unfold exec, exec_stream_end, new_stream, new_file, tee, spawn, stdin_op,
    listen, update_child, nextTick, push.
  cbn. heap. heap. heap. reflexivity.
Qed.

End Exec.

(** C4: a call of [exec] spawns one child, with the command and its
    arguments, whose stdin sees a single operation, its end; it creates
    one file, with the command as its path, and returns a new stream,
    ended, that holds this file and nothing else.  The contents of the
    file are a stream that delivers the chunks of the stdout of the
    child, all of them, in order and unchanged: the stdout stream itself
    without [print], the readable side of the tee it is piped into with
    [print]. *)
Theorem exec_spawns_one_child_and_yields_one_file k print w :
  let c := length (children w) in
  let f := length (files w) in
  let es := fst (exec k print w) in
  let w' := snd (exec k print w) in
  let src := if print then TeeStream (length (tees w)) else ChildStdout c in
  children w' =
    children w ++
    [mkChild (cmd k) (args k) (env w) [StdinEnd]
       (if print then [PipeTo (length (tees w))] else []) []] /\
  files w' = files w ++ [mkFile (cmd k) (CStream src)] /\
  es = length (streams w) /\
  streams w' = streams w ++ [mkObjStream [f] true] /\
  forall outs,
    stream_chunks (run_events (map (Output c) outs) w') src = chunks_of outs /\
    from_option emitted [] (children (run_events (map (Output c) outs) w') !! c)
      = chunks_of outs.
Proof.
  intros c f es w' src. subst c f es w' src. destruct print.
  - rewrite exec_print. cbn [fst snd].
    do 4 (split; [reflexivity|]). intros outs.
    match goal with
    | |- context [run_events _ ?W] =>
        destruct (run_outputs_piping (length (children w)) (length (tees w))
                    (cmd k) outs [] W)
          as [[(ch & Hch & _ & He) Ht] _]
    end.
    { split; [eexists; cbn; split; [apply lookup_snoc|split; reflexivity]
             |cbn; apply lookup_snoc]. }
    unfold stream_chunks. rewrite Ht, Hch. cbn. now split.
  - rewrite exec_quiet. cbn [fst snd].
    do 4 (split; [reflexivity|]). intros outs.
    match goal with
    | |- context [run_events _ ?W] =>
        edestruct (run_outputs_idle_emitted (length (children w)) outs W)
          as (ch & Hch & He & _)
    end; [cbn; apply lookup_snoc|reflexivity|].
    unfold stream_chunks. rewrite Hch. cbn. now split.
Qed.

(** C5, with the input where the code departs from it: with [print],
    what [exec] writes to the standard output of the parent is every
    chunk of the output of the child, prefixed by the program in
    brackets and a blank.  For [echo Hello World], whose output comes
    in one chunk of one line, that is the line prefixed.  For a chunk
    of two lines only the first gets the prefix, where prefixing the
    lines would give it to both; a line that comes in two chunks gets
    it twice. *)
Theorem exec_echo_prefixes_chunks_not_lines :
  (forall k w outs,
     stdout (run_events (map (Output (length (children w))) outs)
               (snd (exec k true w)))
     = stdout w +:+ echoed (cmd k) (chunks_of outs)) /\
  echo_of "echo Hello World" [Some ("Hello World" +:+ nl)]
    = Ok ("[echo] Hello World" +:+ nl) /\
  echo_of "ls" [Some ("a" +:+ nl +:+ "b" +:+ nl)]
    = Ok ("[ls] a" +:+ nl +:+ "b" +:+ nl) /\
  prefix_lines "ls" ("a" +:+ nl +:+ "b" +:+ nl)
    = "[ls] a" +:+ nl +:+ "[ls] b" +:+ nl /\
  echo_of "ls" [Some "a"%string; Some nl] = Ok ("[ls] a[ls] " +:+ nl).
Proof.
  split; [|repeat split; vm_compute; reflexivity].
  intros k w outs. rewrite exec_print. cbn [fst snd].
  match goal with
  | |- context [run_events _ ?W] =>
      destruct (run_outputs_piping (length (children w)) (length (tees w))
                  (cmd k) outs [] W) as (_ & Ho & _)
  end.
  - split; [eexists; cbn; split; [apply lookup_snoc|split; reflexivity]
           |cbn; apply lookup_snoc].
  - exact Ho.
Qed.

(** ** Further properties of the runner *)

Lemma command_of_reads_ast command :
  command_of command = (ast <-- Parser.parse command ;; command_of_ast ast).
Proof. reflexivity. Qed.

Lemma collect_args_labelled nodes : forall acc,
  Forall (fun n => is_Some (arg n)) nodes ->
  collect_args nodes acc = Ok (acc ++ map arg_text_of nodes).
Proof.
  induction nodes as [|n nodes IH]; intros acc H.
  - cbn. now rewrite List.app_nil_r.
  - apply Forall_cons in H as [[a Ha] H]. cbn. unfold arg_text, arg_text_of.
    rewrite Ha. cbn. rewrite (IH _ H). now rewrite <- List.app_assoc.
Qed.

Lemma collect_args_unlabelled nodes : forall acc,
  Exists (fun n => arg n = None) nodes ->
  collect_args nodes acc = Throw TypeError.
Proof.
  induction nodes as [|n nodes IH]; intros acc H.
  - inversion H.
  - cbn. unfold arg_text. destruct (arg n) as [a|] eqn:Ha; cbn; [|reflexivity].
    apply IH. inversion H; subst; [congruence|assumption].
Qed.

(** X1: [run] takes the program from the text of the first element of
    the tree and the arguments from the [arg] children of the elements
    of the third, in their order, one per element; the second element
    and anything after the third are not read.  It throws a type error
    when an element of the argument list has no [arg] child, and when
    the tree has fewer than three elements. *)
Theorem run_reads_program_and_labelled_arguments :
  (forall t e0 e1 e2 rest a,
     Forall (fun n => is_Some (arg n)) (elements e2) ->
     command_of_ast (mkNode t (e0 :: e1 :: e2 :: rest) a)
     = Ok (textValue e0, map arg_text_of (elements e2))) /\
  (forall t e0 e1 e2 rest a,
     Exists (fun n => arg n = None) (elements e2) ->
     command_of_ast (mkNode t (e0 :: e1 :: e2 :: rest) a) = Throw TypeError) /\
  (forall ast, length (elements ast) < 3 -> command_of_ast ast = Throw TypeError) /\
  (forall command,
     command_of command = (ast <-- Parser.parse command ;; command_of_ast ast)).
Proof.
  repeat split.
  - intros t e0 e1 e2 rest a H. unfold command_of_ast. cbn.
    now rewrite (collect_args_labelled _ [] H).
  - intros t e0 e1 e2 rest a H. unfold command_of_ast. cbn.
    now rewrite (collect_args_unlabelled _ [] H).
  - intros [t es a] H. cbn in H. unfold command_of_ast. cbn.
    destruct es as [|e0 [|e1 [|e2 es]]]; cbn in *; try reflexivity. lia.
Qed.

Lemma run_reads_program_and_labelled_arguments_witness :
  command_of_ast
    (mkNode "ls -l" [leaf "ls"; leaf " ";
                     mkNode "-l" [mkNode "-l" [] (Some (leaf "-l"))] None] None)
  = Ok ("ls"%string, ["-l"%string]).
Proof.
  destruct run_reads_program_and_labelled_arguments as (H & _).
  refine (H _ _ _ (mkNode "-l" [mkNode "-l" [] (Some (leaf "-l"))] None) [] None _).
  repeat constructor. cbn. eauto.
Defined.

Lemma run_env command w k w' :
  run command w = Ok (k, w') ->
  env w' = <["PATH"%string := "./node_modules/.bin:" +:+ PATH_of (env w)]> (env w) /\
  files w' = files w /\ children w' = children w /\
  streams w' = streams w ++ [mkObjStream [] false] /\
  stage k = length (streams w).
Proof.
  intros H. unfold run in H.
  destruct (command_of command) as [[c a]|e]; [|discriminate].
  cbn in H. inversion H; subst. cbn. repeat split.
Qed.

(** X2: when [PATH] is not set, constructing a command sets it to the
    local binary directory followed by the word [undefined], and that
    is the environment the children of [exec] get. *)
Theorem run_without_PATH_prepends_to_undefined command w k w' :
  env w !! "PATH"%string = None ->
  run command w = Ok (k, w') ->
  env w' !! "PATH"%string = Some "./node_modules/.bin:undefined"%string /\
  forall print,
    environ <$> children (snd (exec k print w')) !! length (children w')
    = Some (env w').
Proof.
  intros Hp H. destruct (run_env _ _ _ _ H) as (He & _). split.
  - rewrite He, lookup_insert_eq. unfold PATH_of. now rewrite Hp.
  - intros print. destruct print; [rewrite exec_print|rewrite exec_quiet];
      cbn; now rewrite lookup_snoc.
Qed.

Lemma run_without_PATH_prepends_to_undefined_witness :
  exists k w',
    run "ls" (init ∅) = Ok (k, w') /\
    env w' !! "PATH"%string = Some "./node_modules/.bin:undefined"%string.
Proof.
  eexists _, _. split; [reflexivity|].
  refine (proj1 (run_without_PATH_prepends_to_undefined "ls" (init ∅) _ _ _ eq_refl)).
  apply lookup_empty.
Defined.

(** X3: after two commands have been constructed, [PATH] carries the
    local binary directory twice, and a child of the first command
    spawned from then on gets that environment: the second construction
    changes what the first command runs with. *)
Theorem second_command_changes_environment_of_first c1 c2 w k1 w1 k2 w2 :
  run c1 w = Ok (k1, w1) ->
  run c2 w1 = Ok (k2, w2) ->
  PATH_of (env w2)
  = "./node_modules/.bin:" +:+ "./node_modules/.bin:" +:+ PATH_of (env w) /\
  forall f d file,
    files w2 !! f = Some file -> contents file <> CNull ->
    environ <$> children (transform k1 f (Done d) w2) !! length (children w2)
    = Some (env w2).
Proof.
  intros H1 H2.
  destruct (run_env _ _ _ _ H1) as (He1 & _).
  destruct (run_env _ _ _ _ H2) as (He2 & _). split.
  - rewrite He2. unfold PATH_of at 1. rewrite lookup_insert_eq. cbn.
    rewrite He1. unfold PATH_of at 1. now rewrite lookup_insert_eq.
  - intros f d file Hf Hn.
    destruct (transform_non_null_children k1 f (Done d) w2 file Hf Hn) as (ls & ->).
    now rewrite lookup_snoc.
Qed.

Lemma run_ticks_children q : forall w,
  children (run_events (repeat Tick q) w) = children w.
Proof.
  induction q as [|q IH]; intros w; [reflexivity|].
  change (run_events (repeat Tick (S q)) w)
    with (run_events (repeat Tick q) (step w Tick)).
  rewrite IH. unfold step. now destruct (ticks w).
Qed.

Lemma drain_children w : children (drain w) = children w.
Proof. apply run_ticks_children. Qed.

Lemma feed_step k f d w st :
  streams w !! stage k = Some st ->
  passes_through w f ->
  streams (drain (transform k f (Done d) w)) !! stage k
    = Some (mkObjStream (pushed st ++ [f]) (ended st)) /\
  called (drain (transform k f (Done d) w)) = called w ++ ticks w ++ [Done d] /\
  ticks (drain (transform k f (Done d) w)) = [] /\
  length (children (drain (transform k f (Done d) w)))
    = length (children w) + (if in_stream_mode w f then 1 else 0) /\
  (forall g, passes_through w g ->
             passes_through (drain (transform k f (Done d) w)) g) /\
  (forall g, in_stream_mode (drain (transform k f (Done d) w)) g
             = in_stream_mode w g).
Proof.
  intros Hst (file & Hf & Hc).
  destruct (drain_spec (transform k f (Done d) w)) as (Hd1 & Hd2 & Hd3 & Hd4).
  rewrite Hd1, Hd2, Hd4, drain_children.
  unfold passes_through, in_stream_mode. setoid_rewrite Hd3.
  destruct Hc as [Hc | [src Hc]].
  - rewrite (transform_null _ _ _ _ _ Hf Hc). unfold nextTick, push. rewrite Hst.
    cbn. rewrite Hf. unfold isStream. rewrite Hc.
    repeat split; auto; try lia.
    eapply lookup_insert_same; eassumption.
  - rewrite (transform_stream _ _ _ _ _ Hf src Hc). unfold nextTick, push. cbn.
    rewrite Hst. cbn. rewrite Hf. unfold isStream. rewrite Hc.
    repeat split.
    + eapply lookup_insert_same; eassumption.
    + rewrite length_app. cbn. lia.
    + intros g (file' & Hg & Hc'). destruct (decide (g = f)) as [->|Hne].
      * eexists. split; [eapply lookup_insert_same; eassumption|]. cbn. eauto.
      * exists file'. split; [|exact Hc']. now rewrite list_lookup_insert_ne.
    + intros g. destruct (decide (g = f)) as [->|Hne].
      * erewrite lookup_insert_same by eassumption. cbn. now rewrite Hf, Hc.
      * rewrite list_lookup_insert_ne by congruence. reflexivity.
Qed.

(** X4: files that are null or in streaming mode, written to a stage
    one after the other, are pushed downstream in the order they came;
    the callback of each runs, in the same order; and one child is
    spawned for each file in streaming mode, none for a null file. *)
Theorem feed_forwards_in_arrival_order k items : forall w st,
  streams w !! stage k = Some st ->
  Forall (fun item => passes_through w item.1) items ->
  streams (feed k items w) !! stage k
    = Some (mkObjStream (pushed st ++ items.*1) (ended st)) /\
  called (feed k items w) ++ ticks (feed k items w)
    = called w ++ ticks w ++ map (fun item => Done item.2) items /\
  length (children (feed k items w))
    = length (children w)
      + length (List.filter (fun item => in_stream_mode w item.1) items).
Proof.
  induction items as [|[f d] items IH]; intros w st Hst Hall.
  - cbn. rewrite !List.app_nil_r. repeat split; [now destruct st|lia].
  - apply Forall_cons in Hall as [Hf Hall]. cbn in Hf.
    destruct (feed_step k f d w st Hst Hf) as (H1 & H2 & H3 & H4 & H5 & H6).
    change (feed k ((f, d) :: items) w)
      with (feed k items (drain (transform k f (Done d) w))).
    destruct (IH _ _ H1) as (I1 & I2 & I3).
    { eapply Forall_impl; [exact Hall|]. intros item. apply H5. }
    rewrite I1, I2, I3, H2, H3, H4. cbn [pushed ended].
    rewrite (List.filter_ext _ (fun item => in_stream_mode w item.1))
      by (intros item; apply H6).
    cbn. repeat split.
    + now rewrite <- List.app_assoc.
    + now rewrite <- !List.app_assoc.
    + destruct (in_stream_mode w f); cbn; lia.
Qed.

(** X5: whatever the file, [_transform] leaves the environment, the
    standard output, the tees, the callbacks already run and the
    uncaught errors as they were; it changes no file other than the one
    it is given and no stream other than the stage; it creates and
    removes no file, and spawns at most one child. *)
Theorem transform_touches_one_file_and_its_stage k f cb w :
  env (transform k f cb w) = env w /\
  stdout (transform k f cb w) = stdout w /\
  tees (transform k f cb w) = tees w /\
  called (transform k f cb w) = called w /\
  uncaught (transform k f cb w) = uncaught w /\
  length (files (transform k f cb w)) = length (files w) /\
  (forall g, g <> f -> files (transform k f cb w) !! g = files w !! g) /\
  (forall s, s <> stage k -> streams (transform k f cb w) !! s = streams w !! s) /\
  (exists l, children (transform k f cb w) = children w ++ l /\ length l <= 1).
Proof.
  destruct (files w !! f) as [file|] eqn:Hf.
  - destruct (contents file) as [|b|src|v] eqn:Hc.
    + rewrite (transform_null _ _ _ _ _ Hf Hc). unfold nextTick, push.
      destruct (streams w !! stage k) eqn:Hs; cbn; repeat split; auto;
        try (intros s Hne; now rewrite list_lookup_insert_ne);
        exists []; rewrite List.app_nil_r; split; auto.
    + rewrite (transform_buffer _ _ _ _ _ Hf b Hc). cbn. repeat split.
      * apply length_insert.
      * intros g Hne. now rewrite list_lookup_insert_ne.
      * eexists. split; [reflexivity|cbn; lia].
    + rewrite (transform_stream _ _ _ _ _ Hf src Hc). unfold nextTick, push. cbn.
      destruct (streams w !! stage k) eqn:Hs; cbn; repeat split;
        try apply length_insert;
        try (intros g Hne; now rewrite list_lookup_insert_ne);
        eexists; (split; [reflexivity|cbn; lia]).
    + rewrite (transform_other _ _ _ _ _ Hf v Hc). cbn. repeat split.
      eexists. split; [reflexivity|cbn; lia].
  - unfold transform. rewrite Hf. repeat split.
    exists []. rewrite List.app_nil_r. split; auto.
Qed.

Section Waiting.
Variables (c : child_id) (f : file_id) (s : stream_id) (cb : Callback) (p : string).

Lemma step_buffering_not_end acc e w :
  buffering c f s cb p acc w -> about c e -> e <> End c ->
  buffering c f s cb p (acc +:+ output_text e) (step w e) /\
  streams (step w e) = streams w /\
  called (step w e) ++ ticks (step w e) = called w ++ ticks w.
Proof.
  intros Hb He Hn. destruct e as [c' o|c'|c'|]; cbn in He; subst.
  - destruct (step_output_buffering c f s cb p acc o w Hb) as (H1 & H2 & H3 & H4).
    split; [exact H1|]. split; [exact H2|]. now rewrite H3, H4.
  - congruence.
  - destruct Hb as [(ch & Hch & Hl) Hf]. unfold step. rewrite Hch. cbn.
    rewrite str_app_nil_r. split; [split; eauto|split; reflexivity].
  - destruct Hb as [(ch & Hch & Hl) Hf]. unfold step. cbn. rewrite str_app_nil_r.
    destruct (ticks w) as [|t q] eqn:Ht; cbn.
    + rewrite Ht. split; [split; eauto|split; reflexivity].
    + split; [split; eauto|split; [reflexivity|now rewrite <- List.app_assoc]].
Qed.

Lemma run_buffering_not_end es : forall acc w,
  buffering c f s cb p acc w -> Forall (about c) es -> End c ∉ es ->
  buffering c f s cb p (acc +:+ joined (map output_text es)) (run_events es w) /\
  streams (run_events es w) = streams w /\
  called (run_events es w) ++ ticks (run_events es w) = called w ++ ticks w.
Proof.
  induction es as [|e es IH]; intros acc w Hb Hes Hn.
  - cbn. rewrite str_app_nil_r. split; [exact Hb|split; reflexivity].
  - apply Forall_cons in Hes as [He Hes].
    apply not_elem_of_cons in Hn as [Hne Hn].
    destruct (step_buffering_not_end acc e w Hb He) as (H1 & H2 & H3);
      [congruence|].
    destruct (IH _ _ H1 Hes Hn) as (I1 & I2 & I3).
    change (run_events (e :: es) w) with (run_events es (step w e)).
    change (joined (map output_text (e :: es)))
      with (output_text e +:+ joined (map output_text es)).
    rewrite <- str_app_assoc. split; [exact I1|]. split; congruence.
Qed.

End Waiting.

(** X6: in buffered mode, as long as the [end] of the child's output
    does not come, whatever the child delivers, even if it failed to
    spawn and however many ticks pass, nothing is pushed on any stream
    and no callback is queued or run that was not before: the stage
    waits, and the file holds what was delivered so far. *)
Theorem buffered_file_is_held_until_end k f d w file b es :
  files w !! f = Some file -> contents file = CBuffer b ->
  Forall (about (length (children w))) es ->
  End (length (children w)) ∉ es ->
  streams (run_events es (transform k f (Done d) w)) = streams w /\
  called (run_events es (transform k f (Done d) w))
    ++ ticks (run_events es (transform k f (Done d) w))
    = called w ++ ticks w /\
  files (run_events es (transform k f (Done d) w)) !! f
    = Some (mkFile (path file) (CBuffer (joined (map output_text es)))).
Proof.
  intros Hf Hc Hes Hn.
  assert (buffering (length (children w)) f (stage k) (Done d) (path file)
            EmptyString (transform k f (Done d) w)) as Hb.
  { rewrite (transform_buffer _ _ _ _ _ Hf b Hc). split.
    - eexists. cbn. split; [apply lookup_snoc|reflexivity].
    - cbn. eapply lookup_insert_same; eassumption. }
  destruct (run_buffering_not_end _ _ _ _ _ es _ _ Hb Hes Hn) as (H1 & H2 & H3).
  rewrite str_app_nil_l in H1. destruct H1 as [_ H1].
  rewrite H1, H2, H3, (transform_buffer _ _ _ _ _ Hf b Hc). cbn.
  repeat split.
Qed.

Lemma buffered_file_is_held_until_end_witness :
  streams
    (run_events [Output 0 (Some "x"%string); SpawnError 0; Tick; Output 0 None]
       (transform awk 0 (Done 0) (stage_with (CBuffer "in"))))
  = [mkObjStream [] false].
Proof.
  refine
    (proj1
       (buffered_file_is_held_until_end awk 0 0 (stage_with (CBuffer "in"))
          (mkFile "sample.input.txt" (CBuffer "in")) "in"
          [Output 0 (Some "x"%string); SpawnError 0; Tick; Output 0 None]
          eq_refl eq_refl _ _)).
  - repeat constructor.
  - intros H. repeat (apply elem_of_cons in H as [H|H]; [discriminate|]).
    now apply not_elem_of_nil in H.
Defined.

(** X7: without [print], [exec] creates no tee and nothing is ever
    written to the standard output of the parent, whatever the child
    does; nor is any file touched after [exec] returns. *)
Theorem exec_without_print_writes_nothing k w es :
  Forall (about (length (children w))) es ->
  stdout (run_events es (snd (exec k false w))) = stdout w /\
  tees (snd (exec k false w)) = tees w /\
  files (run_events es (snd (exec k false w))) = files (snd (exec k false w)).
Proof.
  intros Hes. rewrite exec_quiet. cbn [fst snd].
  match goal with
  | |- context [run_events es ?W] =>
      destruct (run_events_idle (length (children w)) es W)
        as (_ & H1 & _ & _ & _ & H2)
  end; [|exact Hes|].
  - eexists. cbn. split; [apply lookup_snoc|reflexivity].
  - rewrite H1, H2. repeat split.
Qed.

Lemma exec_without_print_writes_nothing_witness :
  stdout
    (run_events [Output 0 (Some "Hello World"%string); End 0; Tick]
       (snd (exec awk false (stage_with CNull))))
  = EmptyString.
Proof.
  refine
    (proj1
       (exec_without_print_writes_nothing awk (stage_with CNull)
          [Output 0 (Some "Hello World"%string); End 0; Tick] _)).
  repeat constructor.
Defined.

(** *** What no event changes *)

Lemma foldl_keeps {A B} (g : World -> B) (h : World -> A -> World) (ls : list A) :
  (forall w l, g (h w l) = g w) -> forall w, g (foldl h w ls) = g w.
Proof.
  intros Hh. induction ls as [|l ls IH]; intros w; [reflexivity|].
  cbn. now rewrite IH, Hh.
Qed.

Lemma env_on_output o w l : env (on_output o w l) = env w.
Proof.
  unfold on_output, set_contents, tee_transform, nextTick.
  repeat case_match; reflexivity.
Qed.

Lemma env_on_end w l : env (on_end w l) = env w.
Proof. unfold on_end, nextTick, push. repeat case_match; reflexivity. Qed.

Lemma size_on_output o w l :
  length (children (on_output o w l)) = length (children w).
Proof.
  unfold on_output, set_contents, tee_transform, nextTick.
  repeat case_match; reflexivity.
Qed.

Lemma size_on_end w l : length (children (on_end w l)) = length (children w).
Proof. unfold on_end, nextTick, push. repeat case_match; reflexivity. Qed.

Lemma size_update_child c g w :
  length (children (update_child c g w)) = length (children w).
Proof.
  unfold update_child. destruct (children w !! c); [|reflexivity].
  cbn. apply length_insert.
Qed.

Lemma env_update_child c g w : env (update_child c g w) = env w.
Proof. unfold update_child. now destruct (children w !! c). Qed.

Lemma children_on_output o w l : children (on_output o w l) = children w.
Proof.
  unfold on_output, set_contents, tee_transform, nextTick.
  repeat case_match; reflexivity.
Qed.

Lemma children_on_end w l : children (on_end w l) = children w.
Proof. unfold on_end, nextTick, push. repeat case_match; reflexivity. Qed.

Lemma env_step w e : env (step w e) = env w.
Proof.
  destruct e as [c o|c|c|]; unfold step.
  - destruct (children w !! c); [|reflexivity].
    rewrite (foldl_keeps env _ _ (env_on_output o)).
    destruct o; [apply env_update_child|reflexivity].
  - destruct (children w !! c); [|reflexivity].
    apply (foldl_keeps env _ _ env_on_end).
  - now destruct (children w !! c).
  - now destruct (ticks w).
Qed.

Lemma children_step w e :
  children (step w e) = children w \/
  exists c data, e = Output c (Some data) /\
    children (step w e) = children (record_output c data w).
Proof.
  destruct e as [c o|c|c|]; unfold step.
  - destruct (children w !! c); [|now left].
    rewrite (foldl_keeps children _ _ (children_on_output o)).
    destruct o as [data|]; [right; eauto|now left].
  - destruct (children w !! c); [|now left].
    left. apply (foldl_keeps children _ _ children_on_end).
  - left. now destruct (children w !! c).
  - left. now destruct (ticks w).
Qed.

Lemma wired_alike_refl ch : wired_alike ch ch.
Proof. repeat split. Qed.

Lemma wired_alike_trans ch1 ch2 ch3 :
  wired_alike ch1 ch2 -> wired_alike ch2 ch3 -> wired_alike ch1 ch3.
Proof.
  intros (H1 & H2 & H3 & H4 & H5) (I1 & I2 & I3 & I4 & I5).
  repeat split; congruence.
Qed.

Lemma step_keeps_wiring w e c ch :
  children w !! c = Some ch ->
  exists ch', children (step w e) !! c = Some ch' /\ wired_alike ch ch'.
Proof.
  intros Hch. destruct (children_step w e) as [-> | (c0 & data & _ & ->)].
  - exists ch. split; [exact Hch|apply wired_alike_refl].
  - unfold record_output, update_child.
    destruct (children w !! c0) as [ch0|] eqn:H0; cbn.
    + destruct (decide (c = c0)) as [->|Hne].
      * eexists. split; [eapply lookup_insert_same; eassumption|].
        assert (ch0 = ch) as -> by congruence. repeat split.
      * exists ch. rewrite list_lookup_insert_ne by congruence.
        split; [exact Hch|apply wired_alike_refl].
    + exists ch. split; [exact Hch|apply wired_alike_refl].
Qed.

Lemma size_step w e : length (children (step w e)) = length (children w).
Proof.
  destruct (children_step w e) as [-> | (c0 & data & _ & ->)]; [reflexivity|].
  apply size_update_child.
Qed.

(** X8: no event changes the environment of the process, spawns or
    removes a child, or changes the program, the arguments, the
    environment, the stdin operations or the listeners of a child. *)
Theorem events_keep_environment_and_wiring es : forall w,
  env (run_events es w) = env w /\
  length (children (run_events es w)) = length (children w) /\
  forall c ch, children w !! c = Some ch ->
    exists ch', children (run_events es w) !! c = Some ch' /\ wired_alike ch ch'.
Proof.
  induction es as [|e es IH]; intros w.
  - repeat split. intros c ch H. exists ch. split; [exact H|apply wired_alike_refl].
  - change (run_events (e :: es) w) with (run_events es (step w e)).
    destruct (IH (step w e)) as (I1 & I2 & I3).
    rewrite I1, I2, env_step, size_step. repeat split.
    intros c ch Hch.
    destruct (step_keeps_wiring w e c ch Hch) as (ch1 & H1 & Hw1).
    destruct (I3 c ch1 H1) as (ch2 & H2 & Hw2).
    exists ch2. split; [exact H2|]. eapply wired_alike_trans; eassumption.
Qed.

Lemma files_push s f w : files (push s f w) = files w.
Proof. unfold push. now destruct (streams w !! s). Qed.

Lemma env_push s f w : env (push s f w) = env w.
Proof. unfold push. now destruct (streams w !! s). Qed.

(** X9: a file in streaming mode that goes through two stages in a row
    gets two children, the stdout of the first piped into the stdin of
    the second, and ends with the stdout of the second as its
    contents. *)
Theorem streaming_stages_connect_children k1 k2 f d1 d2 w file src :
  files w !! f = Some file -> contents file = CStream src ->
  let c := length (children w) in
  let w2 := transform k2 f (Done d2) (transform k1 f (Done d1) w) in
  children w2 =
    children w ++
    [mkChild (cmd k1) (args k1) (env w) [PipedFrom f (CStream src)] [] [];
     mkChild (cmd k2) (args k2) (env w)
       [PipedFrom f (CStream (ChildStdout c))] [] []] /\
  files w2 !! f = Some (mkFile (path file) (CStream (ChildStdout (S c)))).
Proof.
  intros Hf Hc c w2. subst c w2.
  set (w1 := transform k1 f (Done d1) w).
  assert (files w1 !! f
          = Some (mkFile (path file) (CStream (ChildStdout (length (children w))))))
    as Hf1.
  { unfold w1. rewrite (transform_stream _ _ _ _ _ Hf src Hc). unfold nextTick.
    cbn. rewrite files_push. cbn. eapply lookup_insert_same; eassumption. }
  assert (children w1 =
          children w ++
          [mkChild (cmd k1) (args k1) (env w) [PipedFrom f (CStream src)] [] []])
    as Hch1.
  { unfold w1. rewrite (transform_stream _ _ _ _ _ Hf src Hc). unfold nextTick.
    cbn. now rewrite children_push. }
  assert (env w1 = env w) as He1.
  { unfold w1. rewrite (transform_stream _ _ _ _ _ Hf src Hc). unfold nextTick.
    cbn. now rewrite env_push. }
  rewrite (transform_stream _ _ _ _ _ Hf1 _ eq_refl). unfold nextTick. cbn.
  rewrite children_push, files_push. cbn.
  rewrite Hch1, He1, length_app, <- List.app_assoc. cbn. split; [reflexivity|].
  rewrite Nat.add_1_r. eapply lookup_insert_same; eassumption.
Qed.

Lemma streaming_stages_connect_children_witness :
  files
    (transform (mkCommand "wc" [] 0) 0 (Done 1)
       (transform awk 0 (Done 0) (stage_with (CStream (SourceStream 0))))) !! 0%nat
  = Some (mkFile "sample.input.txt" (CStream (ChildStdout 1))).
Proof.
  exact
    (proj2
       (streaming_stages_connect_children awk (mkCommand "wc" [] 0) 0 0 1
          (stage_with (CStream (SourceStream 0)))
          (mkFile "sample.input.txt" (CStream (SourceStream 0)))
          (SourceStream 0) eq_refl eq_refl)).
Defined.

Lemma env_run_events es w : env (run_events es w) = env w.
Proof. apply (foldl_keeps env). apply env_step. Qed.

Lemma size_run_events es w :
  length (children (run_events es w)) = length (children w).
Proof.
  apply (foldl_keeps (fun w => length (children w))). apply size_step.
Qed.

(** X10: a file in buffered mode that has gone through one stage and
    is written to a second: the child of the second stage is given, as
    its stdin, the whole output of the first child, concatenated, and
    the file starts over with an empty buffer. *)
Theorem buffered_stages_hand_over_whole_output k1 k2 f d1 d2 w file b outs :
  files w !! f = Some file -> contents file = CBuffer b ->
  let c := length (children w) in
  let w1 :=
    step (run_events (map (Output c) outs) (transform k1 f (Done d1) w)) (End c) in
  let w2 := transform k2 f (Done d2) w1 in
  children w2 !! S c =
    Some (mkChild (cmd k2) (args k2) (env w)
            [PipedFrom f (CBuffer (joined (chunks_of outs)))]
            [OnReadable f; OnEnd (stage k2) f (Done d2)] []) /\
  files w2 !! f = Some (mkFile (path file) (CBuffer EmptyString)).
Proof.
  intros Hf Hc c w1 w2. subst w2.
  assert (buffering c f (stage k1) (Done d1) (path file) EmptyString
            (transform k1 f (Done d1) w)) as Hb.
  { rewrite (transform_buffer _ _ _ _ _ Hf b Hc). split.
    - eexists. cbn. split; [apply lookup_snoc|reflexivity].
    - cbn. eapply lookup_insert_same; eassumption. }
  destruct (run_outputs_buffering c f (stage k1) (Done d1) (path file) outs _ _ Hb)
    as (Hb1 & _).
  rewrite str_app_nil_l in Hb1.
  assert (files w1 !! f
          = Some (mkFile (path file) (CBuffer (joined (chunks_of outs))))) as Hf1.
  { unfold w1. rewrite (step_end_buffering _ _ _ _ _ _ _ Hb1). unfold nextTick.
    cbn. rewrite files_push. apply Hb1. }
  assert (length (children w1) = S c) as Hl1.
  { unfold w1. rewrite size_step, size_run_events.
    rewrite (transform_buffer _ _ _ _ _ Hf b Hc). cbn.
    rewrite length_app. cbn. unfold c. lia. }
  assert (env w1 = env w) as He1.
  { unfold w1. rewrite env_step, env_run_events.
    now rewrite (transform_buffer _ _ _ _ _ Hf b Hc). }
  clearbody w1.
  rewrite (transform_buffer _ _ _ _ _ Hf1 _ eq_refl). cbn.
  rewrite He1, <- Hl1. split; [apply lookup_snoc|].
  eapply lookup_insert_same; eassumption.
Qed.

Lemma buffered_stages_hand_over_whole_output_witness :
  stdin <$>
    children
      (transform (mkCommand "wc" [] 0) 0 (Done 1)
         (step
            (run_events (map (Output 0) [Some "2"%string; Some "4"%string])
               (transform awk 0 (Done 0) (stage_with (CBuffer "1234"))))
            (End 0))) !! 1%nat
  = Some [PipedFrom 0 (CBuffer "24")].
Proof.
  exact
    (f_equal (fmap stdin)
       (proj1
          (buffered_stages_hand_over_whole_output awk (mkCommand "wc" [] 0) 0 0 1
             (stage_with (CBuffer "1234"))
             (mkFile "sample.input.txt" (CBuffer "1234")) "1234"
             [Some "2"%string; Some "4"%string] eq_refl eq_refl))).
Defined.

(** *** Streams only grow *)

Lemma grows_refl w : grows w w.
Proof. intros s st H. exists st. repeat split; [exact H|reflexivity]. Qed.

Lemma grows_trans w1 w2 w3 : grows w1 w2 -> grows w2 w3 -> grows w1 w3.
Proof.
  intros H12 H23 s st H. destruct (H12 s st H) as (st2 & H2 & Hp2 & He2).
  destruct (H23 s st2 H2) as (st3 & H3 & Hp3 & He3).
  exists st3. repeat split; [exact H3|now transitivity (pushed st2)|congruence].
Qed.

Lemma grows_same w w' : streams w' = streams w -> grows w w'.
Proof. intros E s st H. exists st. rewrite E. repeat split; [exact H|reflexivity]. Qed.

Lemma grows_push s f w : grows w (push s f w).
Proof.
  unfold push. destruct (streams w !! s) as [st0|] eqn:Hs; [|apply grows_refl].
  intros s' st H. cbn. destruct (decide (s' = s)) as [->|Hne].
  - assert (st0 = st) as -> by congruence.
    eexists. split; [eapply lookup_insert_same; eassumption|]. cbn.
    split; [now apply prefix_app_r|reflexivity].
  - exists st. rewrite list_lookup_insert_ne by congruence.
    repeat split; [exact H|reflexivity].
Qed.

Lemma grows_snoc w w' st :
  streams w' = streams w ++ [st] -> grows w w'.
Proof.
  intros E s st0 H. exists st0. rewrite E.
  rewrite lookup_app_l by (eapply lookup_lt_Some; eassumption).
  repeat split; [exact H|reflexivity].
Qed.

Lemma grows_foldl {A} (h : World -> A -> World) (ls : list A) :
  (forall w l, grows w (h w l)) -> forall w, grows w (foldl h w ls).
Proof.
  intros Hh. induction ls as [|l ls IH]; intros w; [apply grows_refl|].
  cbn. eapply grows_trans; [apply Hh|apply IH].
Qed.

Lemma grows_push_tick s f cb w w0 :
  streams w0 = streams w -> grows w (nextTick cb (push s f w0)).
Proof.
  intros E. apply (grows_trans w w0); [now apply grows_same|].
  apply (grows_trans w0 (push s f w0)); [apply grows_push|now apply grows_same].
Qed.

Lemma grows_on_output o w l : grows w (on_output o w l).
Proof.
  apply grows_same. unfold on_output, set_contents, tee_transform, nextTick.
  repeat case_match; reflexivity.
Qed.

Lemma grows_on_end w l : grows w (on_end w l).
Proof.
  unfold on_end. destruct l; try apply grows_refl. now apply grows_push_tick.
Qed.

Lemma grows_step w e : grows w (step w e).
Proof.
  destruct e as [c o|c|c|]; unfold step.
  - destruct (children w !! c); [|apply grows_refl].
    eapply grows_trans; [|apply grows_foldl, grows_on_output].
    apply grows_same. destruct o; [|reflexivity].
    unfold record_output, update_child. now destruct (children w !! c).
  - destruct (children w !! c); [|apply grows_refl].
    apply grows_foldl, grows_on_end.
  - destruct (children w !! c); [now apply grows_same|apply grows_refl].
  - destruct (ticks w); [apply grows_refl|now apply grows_same].
Qed.

Lemma grows_transform k f cb w : grows w (transform k f cb w).
Proof.
  destruct (files w !! f) as [file|] eqn:Hf.
  - destruct (contents file) as [|b|src|v] eqn:Hc.
    + rewrite (transform_null _ _ _ _ _ Hf Hc). now apply grows_push_tick.
    + rewrite (transform_buffer _ _ _ _ _ Hf b Hc). now apply grows_same.
    + rewrite (transform_stream _ _ _ _ _ Hf src Hc). now apply grows_push_tick.
    + rewrite (transform_other _ _ _ _ _ Hf v Hc). now apply grows_same.
  - unfold transform. rewrite Hf. apply grows_refl.
Qed.

(** X11: a file pushed on a stream stays pushed: no event, no call of
    [_transform] or [exec] and no construction of a command removes a
    stream, removes or reorders items pushed on it, or changes whether
    it is ended; items are only added after those already there. *)
Theorem forwarded_files_are_never_retracted :
  (forall es w, grows w (run_events es w)) /\
  (forall k f cb w, grows w (transform k f cb w)) /\
  (forall k print w, grows w (snd (exec k print w))) /\
  (forall command w k w', run command w = Ok (k, w') -> grows w w').
Proof.
  repeat split.
  - intros es w. apply grows_foldl, grows_step.
  - apply grows_transform.
  - intros k print w.
    destruct print; [rewrite exec_print|rewrite exec_quiet];
      eapply grows_snoc; reflexivity.
  - intros command w k w' H. destruct (run_env _ _ _ _ H) as (_ & _ & _ & Hs & _).
    eapply grows_snoc; exact Hs.
Qed.

Lemma call_step s callback1 f callback2 w st :
  streams w !! s = Some st ->
  streams (drain (call_transform s callback1 f callback2 w)) !! s
    = Some (mkObjStream (pushed st ++ [f]) (ended st)) /\
  called (drain (call_transform s callback1 f callback2 w))
    = called w ++ ticks w ++ [callback2; callback1] /\
  ticks (drain (call_transform s callback1 f callback2 w)) = [] /\
  files (drain (call_transform s callback1 f callback2 w)) = files w /\
  children (drain (call_transform s callback1 f callback2 w)) = children w.
Proof.
  intros Hst.
  destruct (drain_spec (call_transform s callback1 f callback2 w))
    as (D1 & D2 & D3 & D4).
  rewrite D1, D2, D3, D4, drain_children.
  destruct (push_fields s f w st Hst) as (P1 & P2 & P3 & P4 & P5).
  unfold call_transform, nextTick. cbn. rewrite P1, P2, P3, P4, P5.
  repeat split. now rewrite <- !List.app_assoc.
Qed.

(** X12: the helper [call] of the test suite pushes every file it is
    given, unchanged and in order, and runs its callback once per file,
    each time right after the callback of that file; it spawns
    nothing. *)
Theorem call_runs_its_callback_once_per_file s callback1 items : forall w st,
  streams w !! s = Some st ->
  streams (feed_call s callback1 items w) !! s
    = Some (mkObjStream (pushed st ++ items.*1) (ended st)) /\
  called (feed_call s callback1 items w) ++ ticks (feed_call s callback1 items w)
    = called w ++ ticks w
      ++ flat_map (fun item => [Done item.2; callback1]) items /\
  files (feed_call s callback1 items w) = files w /\
  children (feed_call s callback1 items w) = children w.
Proof.
  induction items as [|[f d] items IH]; intros w st Hst.
  - cbn. rewrite !List.app_nil_r. repeat split. now destruct st.
  - change (feed_call s callback1 ((f, d) :: items) w)
      with (feed_call s callback1 items
              (drain (call_transform s callback1 f (Done d) w))).
    destruct (call_step s callback1 f (Done d) w st Hst) as (C1 & C2 & C3 & C4 & C5).
    destruct (IH _ _ C1) as (I1 & I2 & I3 & I4).
    rewrite I1, I2, I3, I4, C2, C3, C4, C5. cbn.
    repeat split.
    + now rewrite <- List.app_assoc.
    + now rewrite <- !List.app_assoc.
Qed.

Lemma call_runs_its_callback_once_per_file_witness :
  called (feed_call 0 (Done 9) [(0, 1); (0, 2)] (stage_with CNull))
    ++ ticks (feed_call 0 (Done 9) [(0, 1); (0, 2)] (stage_with CNull))
  = [Done 1; Done 9; Done 2; Done 9].
Proof.
  exact
    (proj1 (proj2
       (call_runs_its_callback_once_per_file 0 (Done 9) [(0, 1); (0, 2)]
          (stage_with CNull) (mkObjStream [] false) eq_refl))).
Defined.

Lemma second_command_changes_environment_of_first_witness :
  exists k1 w1 k2 w2,
    run "ls" (init {[ "PATH"%string := "/usr/bin"%string ]}) = Ok (k1, w1) /\
    run "wc" w1 = Ok (k2, w2) /\
    PATH_of (env w2)
    = "./node_modules/.bin:./node_modules/.bin:/usr/bin"%string.
Proof.
  eexists _, _, _, _. split; [reflexivity|]. split; [reflexivity|].
  etransitivity;
    [exact (proj1
              (second_command_changes_environment_of_first "ls" "wc"
                 (init {[ "PATH"%string := "/usr/bin"%string ]})
                 _ _ _ _ eq_refl eq_refl))|].
  vm_compute. reflexivity.
Defined.

Lemma feed_forwards_in_arrival_order_witness :
  streams (feed awk [(0, 1); (0, 2)] (stage_with (CStream (SourceStream 0))))
    !! 0%nat
  = Some (mkObjStream [0; 0] false).
Proof.
  refine
    (proj1
       (feed_forwards_in_arrival_order awk [(0, 1); (0, 2)]
          (stage_with (CStream (SourceStream 0))) (mkObjStream [] false)
          eq_refl _)).
  repeat constructor; eexists; (split; [reflexivity|right; eexists; reflexivity]).
Defined.

Lemma transform_touches_one_file_and_its_stage_witness :
  files
    (transform awk 0 (Done 0)
       (with_files [mkFile "a" (CBuffer "x"); mkFile "b" (CBuffer "y")]
          (stage_with CNull))) !! 1%nat
  = Some (mkFile "b" (CBuffer "y")).
Proof.
  destruct
    (transform_touches_one_file_and_its_stage awk 0 (Done 0)
       (with_files [mkFile "a" (CBuffer "x"); mkFile "b" (CBuffer "y")]
          (stage_with CNull)))
    as (_ & _ & _ & _ & _ & _ & H & _).
  rewrite (H 1%nat); [reflexivity|discriminate].
Defined.

Lemma events_keep_environment_and_wiring_witness :
  exists ch',
    children
      (run_events [Output 0 (Some "x"%string); End 0; Tick]
         (transform awk 0 (Done 0) (stage_with (CBuffer "in")))) !! 0%nat
    = Some ch' /\
    stdin ch' = [PipedFrom 0 (CBuffer "in")].
Proof.
  destruct
    (events_keep_environment_and_wiring
       [Output 0 (Some "x"%string); End 0; Tick]
       (transform awk 0 (Done 0) (stage_with (CBuffer "in"))))
    as (_ & _ & H).
  destruct
    (H 0%nat
       (mkChild "awk" ["NR % 2 == 0"%string] ∅ [PipedFrom 0 (CBuffer "in")]
          [OnReadable 0; OnEnd 0 0 (Done 0)] []) eq_refl)
    as (ch' & H1 & _ & _ & _ & H2 & _).
  exists ch'. split; [exact H1|exact H2].
Defined.

Lemma forwarded_files_are_never_retracted_witness :
  grows (stage_with CNull)
    (run_events [Tick] (transform awk 0 (Done 0) (stage_with CNull))).
Proof.
  destruct forwarded_files_are_never_retracted as (H1 & H2 & _).
  eapply grows_trans; [apply H2|apply H1].
Defined.
